(** * Registration route ([src/routes/auth/register.ts])

    A shallow embedding of the [POST /register] middleware chain and of the
    field validators it uses, with the properties the design document states
    about them.

    Conventions.
    - A JavaScript string is the list of its UTF-16 code units ([jsstring]).
      Program literals are written [lit "..."].
    - A call that can raise is a [completion]: [Return v] or [Throw e].
    - Handlers are written in continuation-passing style over a small
      state-and-exception monad [M]; [next] is the rest of the chain.
    - [validationFunctions], [credentialingFunctions] and [pool] are imported
      from [core/utilities]; they appear here as interfaces (type classes). *)

From stdpp Require Import base numbers option list strings gmap.

Set Default Proof Using "Type".
Set Warnings "-register-all".
Local Open Scope Z_scope.

(** ** JavaScript values *)

Module Js.

(** UTF-16 code units. *)
Definition jsstring := list N.

(** The code units of an ASCII literal. *)
Fixpoint lit (s : string) : jsstring :=
  match s with
  | EmptyString => []
  | String a r => Ascii.N_of_ascii a :: lit r
  end.

(** The numbers this module computes with are the results of [parseInt]:
    [NaN], or an integer.  The integer is kept exact; the code only compares
    it with 1, 5 and 20 and adds single digits, which the double nearest to
    it answers the same way.  An integer of a request body is a number of
    this kind too. *)
Inductive jsnum := NaN | Num (z : Z).

(** A field of [request.body] as the body parser delivers it: absent, or a
    JSON value that is [null], a boolean, a number, a string or an array of
    such values.  A number that is an integer below 10^21 in absolute value
    is [FNum (Num z)]; it prints as its decimal digits.  Every other number
    (a fraction, an integer from 10^21 on, an infinity) is [FReal text],
    given by the text that [ToString] prints for it, which identifies it.
    An object as the value of a field is outside the model: converting one
    to a primitive value can fail on the properties it holds. *)
Inductive field :=
  | FMissing
  | FNull
  | FBool (b : bool)
  | FNum (n : jsnum)
  | FReal (text : jsstring)
  | FStr (s : jsstring)
  | FArr (items : list field).

(** The values the helpers, the storage and [jwt.sign] receive: a field of
    the body as it is, or a number computed by [parseInt]. *)
Inductive jsval :=
  | JUndefined
  | JNull
  | JBool (b : bool)
  | JNum (n : jsnum)
  | JReal (text : jsstring)
  | JStr (s : jsstring)
  | JArr (items : list field).

Definition val_of_field (f : field) : jsval :=
  match f with
  | FMissing => JUndefined
  | FNull => JNull
  | FBool b => JBool b
  | FNum n => JNum n
  | FReal text => JReal text
  | FStr s => JStr s
  | FArr items => JArr items
  end.

Inductive exn :=
  | TypeError
  | Error (msg : string).

Inductive completion (A : Type) :=
  | Return (a : A)
  | Throw (e : exn).
Arguments Return {A} a.
Arguments Throw {A} e.

#[global] Instance jsnum_eq_dec : EqDecision jsnum.
Proof. solve_decision. Defined.
#[global] Instance field_eq_dec : EqDecision field.
Proof.
  refine (
    fix go (x y : field) : Decision (x = y) :=
      let _ : EqDecision field := @go in
      match x, y with
      | FMissing, FMissing => left _
      | FNull, FNull => left _
      | FBool b, FBool b' => cast_if (decide (b = b'))
      | FNum n, FNum n' => cast_if (decide (n = n'))
      | FReal t, FReal t' => cast_if (decide (t = t'))
      | FStr s, FStr s' => cast_if (decide (s = s'))
      | FArr l, FArr l' => cast_if (decide (l = l'))
      | _, _ => right _
      end); congruence.
Defined.
#[global] Instance jsval_eq_dec : EqDecision jsval.
Proof. solve_decision. Defined.

(** The decimal digits of an integer, with its sign. *)
Fixpoint uint_codes (u : Decimal.uint) : jsstring :=
  match u with
  | Decimal.Nil => []
  | Decimal.D0 r => 48%N :: uint_codes r
  | Decimal.D1 r => 49%N :: uint_codes r
  | Decimal.D2 r => 50%N :: uint_codes r
  | Decimal.D3 r => 51%N :: uint_codes r
  | Decimal.D4 r => 52%N :: uint_codes r
  | Decimal.D5 r => 53%N :: uint_codes r
  | Decimal.D6 r => 54%N :: uint_codes r
  | Decimal.D7 r => 55%N :: uint_codes r
  | Decimal.D8 r => 56%N :: uint_codes r
  | Decimal.D9 r => 57%N :: uint_codes r
  end.

Definition decimal (z : Z) : jsstring :=
  (if z <? 0 then [45%N] else []) ++ uint_codes (N.to_uint (Z.abs_N z)).

Definition isNaN (n : jsnum) : bool :=
  match n with NaN => true | Num _ => false end.

(** [x >= k] and [x <= k] for a number [x] and an integer constant [k];
    every comparison with [NaN] is false. *)
Definition num_ge (n : jsnum) (k : Z) : bool :=
  match n with NaN => false | Num z => k <=? z end.
Definition num_le (n : jsnum) (k : Z) : bool :=
  match n with NaN => false | Num z => z <=? k end.

(** *** [parseInt(string)] with no radix argument *)

Definition in_range (lo hi c : N) : bool := ((lo <=? c) && (c <=? hi))%N.

(** WhiteSpace and LineTerminator code units (StrWhiteSpaceChar). *)
Definition is_white_space (c : N) : bool :=
  (in_range 9 13 c || (c =? 32) || (c =? 160) || (c =? 5760)
   || in_range 8192 8202 c || (c =? 8232) || (c =? 8233) || (c =? 8239)
   || (c =? 8287) || (c =? 12288) || (c =? 65279))%N.

Fixpoint trim_start (s : jsstring) : jsstring :=
  match s with
  | c :: r => if is_white_space c then trim_start r else s
  | [] => []
  end.

Definition digit_value (radix : Z) (c : N) : option Z :=
  let v :=
    if in_range 48 57 c then Some (Z.of_N c - 48)
    else if in_range 97 122 c then Some (Z.of_N c - 87)
    else if in_range 65 90 c then Some (Z.of_N c - 55)
    else None in
  match v with
  | Some d => if d <? radix then Some d else None
  | None => None
  end.

(** The longest prefix of digits of the radix, as digit values. *)
Fixpoint digits_prefix (radix : Z) (s : jsstring) : list Z :=
  match s with
  | c :: r =>
      match digit_value radix c with
      | Some d => d :: digits_prefix radix r
      | None => []
      end
  | [] => []
  end.

Definition digits_value (radix : Z) (ds : list Z) : Z :=
  foldl (λ acc d, acc * radix + d) 0 ds.

(** An optional sign in front. *)
Definition strip_sign (s : jsstring) : Z * jsstring :=
  match s with
  | c :: r =>
      if (c =? 45)%N then (-1, r)
      else if (c =? 43)%N then (1, r)
      else (1, s)
  | [] => (1, s)
  end.

(** [0x] or [0X] in front selects radix 16. *)
Definition strip_prefix (s : jsstring) : Z * jsstring :=
  match s with
  | a :: b :: r =>
      if ((a =? 48) && ((b =? 120) || (b =? 88)))%N then (16, r) else (10, s)
  | _ => (10, s)
  end.

Definition parseInt_string (s : jsstring) : jsnum :=
  let '(sign, s2) := strip_sign (trim_start s) in
  let '(radix, s3) := strip_prefix s2 in
  match digits_prefix radix s3 with
  | [] => NaN
  | ds => Num (sign * digits_value radix ds)
  end.

(** *** Regular expressions

    The patterns of this module use character classes, concatenation,
    alternation and bounded or unbounded repetition, and are anchored at both
    ends without flags.  For such a pattern [test] and [match] succeed exactly
    when the whole subject belongs to the pattern's language, which the
    derivative matcher below decides ([RegexFacts.matches_spec]). *)

Inductive regex :=
  | Void
  | Eps
  | Class (p : N → bool)
  | Seq (r1 r2 : regex)
  | Alt (r1 r2 : regex)
  | Star (r : regex).

Fixpoint nullable (r : regex) : bool :=
  match r with
  | Void => false
  | Eps => true
  | Class _ => false
  | Seq r1 r2 => nullable r1 && nullable r2
  | Alt r1 r2 => nullable r1 || nullable r2
  | Star _ => true
  end.

Definition seq (r1 r2 : regex) : regex :=
  match r1, r2 with
  | Void, _ => Void
  | _, Void => Void
  | Eps, _ => r2
  | _, _ => Seq r1 r2
  end.

Definition alt (r1 r2 : regex) : regex :=
  match r1, r2 with
  | Void, _ => r2
  | _, Void => r1
  | _, _ => Alt r1 r2
  end.

Fixpoint deriv (c : N) (r : regex) : regex :=
  match r with
  | Void => Void
  | Eps => Void
  | Class p => if p c then Eps else Void
  | Seq r1 r2 =>
      alt (seq (deriv c r1) r2) (if nullable r1 then deriv c r2 else Void)
  | Alt r1 r2 => alt (deriv c r1) (deriv c r2)
  | Star r1 => seq (deriv c r1) (Star r1)
  end.

Definition matches (r : regex) (s : jsstring) : bool :=
  nullable (foldl (λ r c, deriv c r) r s).

(** The language of a pattern, to state what [matches] decides. *)
Inductive in_lang : regex → jsstring → Prop :=
  | in_eps : in_lang Eps []
  | in_class p c : p c = true → in_lang (Class p) [c]
  | in_seq r1 r2 s1 s2 :
      in_lang r1 s1 → in_lang r2 s2 → in_lang (Seq r1 r2) (s1 ++ s2)
  | in_alt_l r1 r2 s : in_lang r1 s → in_lang (Alt r1 r2) s
  | in_alt_r r1 r2 s : in_lang r2 s → in_lang (Alt r1 r2) s
  | in_star_nil r : in_lang (Star r) []
  | in_star_app r s1 s2 :
      in_lang r s1 → in_lang (Star r) s2 → in_lang (Star r) (s1 ++ s2).

Definition plus (r : regex) : regex := Seq r (Star r).

Fixpoint times (n : nat) (r : regex) : regex :=
  match n with
  | O => Eps
  | S n' => Seq r (times n' r)
  end.

(** [r{n,}] *)
Definition at_least (n : nat) (r : regex) : regex := Seq (times n r) (Star r).

(** [r{0,n}] *)
Fixpoint at_most (n : nat) (r : regex) : regex :=
  match n with
  | O => Eps
  | S n' => Alt Eps (Seq r (at_most n' r))
  end.

(** [r{lo,lo+extra}] *)
Definition between (lo extra : nat) (r : regex) : regex :=
  Seq (times lo r) (at_most extra r).

Definition chr (c : N) : regex := Class (N.eqb c).

Definition one_of (cs : list N) (c : N) : bool := bool_decide (c ∈ cs).
Definition none_of (cs : list N) (ws : bool) (c : N) : bool :=
  negb (bool_decide (c ∈ cs)) && negb (ws && is_white_space c).

(** [.] matches every code unit but the line terminators. *)
Definition dot : regex :=
  Class (λ c, negb ((c =? 10) || (c =? 13) || (c =? 8232) || (c =? 8233))%N).

(** *** Iterating a string ([for (const char of s)])

    The string iterator yields code points: a lead surrogate followed by a
    trail surrogate is one item of two code units. *)
Definition is_lead (c : N) : bool := in_range 55296 56319 c.
Definition is_trail (c : N) : bool := in_range 56320 57343 c.

Fixpoint code_points (s : jsstring) : list jsstring :=
  match s with
  | [] => []
  | hi :: rest =>
      match rest with
      | lo :: rest' =>
          if is_lead hi && is_trail lo
          then [hi; lo] :: code_points rest'
          else [hi] :: code_points rest
      | [] => [[hi]]
      end
  end.

End Js.

(** ** The imported interfaces *)

Module Import Interfaces.
Import Js.

(** [validationFunctions] of [core/utilities].  The module is not among the
    sources; its two members are taken as total boolean functions of their
    argument. *)
Class ValidationFunctions := {
  isStringProvided : jsval → bool;
  isNumberProvided : jsval → bool;
}.

(** [credentialingFunctions] of [core/utilities], not among the sources
    either: [generateSalt(n)] stands for the value drawn for the request at
    hand, and [generateHash] is taken to return a digest for every
    argument. *)
Class CredentialingFunctions := {
  generateSalt : Z → jsstring;
  generateHash : jsval → jsstring → jsstring;
}.

(** [String.prototype.toLowerCase], a built-in of the runtime (full Unicode
    case mapping). *)
Class Builtins := {
  toLowerCase : jsstring → jsstring;
}.

End Interfaces.

(** ** Field validators *)

Module Validators.
Import Js.

Section validators.
Context `{VF : ValidationFunctions, B : Builtins}.

(** [ToString] of a body field, as [parseInt] and [test] apply it to their
    argument.  An array prints as its items joined by commas (44), an item
    that is [null] or [undefined] printing as nothing. *)
Fixpoint to_string (v : field) : jsstring :=
  match v with
  | FMissing => lit "undefined"
  | FNull => lit "null"
  | FBool true => lit "true"
  | FBool false => lit "false"
  | FNum NaN => lit "NaN"
  | FNum (Num z) => decimal z
  | FReal text => text
  | FStr s => s
  | FArr items =>
      (fix join (l : list field) : jsstring :=
         match l with
         | [] => []
         | e :: r =>
             match e with FMissing | FNull => [] | _ => to_string e end
             ++ match r with [] => [] | _ :: _ => 44%N :: join r end
         end) items
  end.

Definition parseInt (v : field) : jsnum := parseInt_string (to_string v).

(** [v.length]: the length of a string or of an array; [undefined] (no
    value) for a boolean or a number; reading a property of [undefined] or
    [null] raises. *)
Definition get_length (v : field) : completion (option Z) :=
  match v with
  | FStr s => Return (Some (Z.of_nat (length s)))
  | FArr items => Return (Some (Z.of_nat (length items)))
  | FBool _ | FNum _ | FReal _ => Return None
  | FMissing | FNull => Throw TypeError
  end.

Definition num_add (a b : jsnum) : jsnum :=
  match a, b with
  | Num x, Num y => Num (x + y)
  | _, _ => NaN
  end.

(** [x === k] for an integer constant [k]. *)
Definition num_is (n : jsnum) (k : Z) : bool :=
  match n with NaN => false | Num z => z =? k end.

(** The class of [testSpecial]: the thirty punctuation marks of the
    pattern, in its order; 34 is the double quote. *)
Definition special_chars : list N :=
  lit "!@#$%^&*()_+-=[]{};':" ++ [34%N] ++ lit "\|,.<>/?".

(** [/^[...]*$/] *)
Definition testSpecial : regex := Star (Class (one_of special_chars)).

(** The locals of the loop in [isValidPassword]. *)
Record scan := Scan { sum : jsnum; isNum : bool; hasSpecialChar : bool }.

Definition scan_char (st : scan) (char : jsstring) : scan :=
  if isNumberProvided (JNum (parseInt_string char))
     && negb (isNaN (parseInt_string char))
  then Scan (num_add (parseInt_string char) (sum st)) true (hasSpecialChar st)
  else if matches testSpecial char
  then Scan (sum st) (isNum st) true
  else st.

Definition scan_password (s : jsstring) : scan :=
  foldl scan_char (Scan (Num 0) false false) (code_points s).

(** The loop over an array takes its items, each printed by [parseInt] and
    by [test]. *)
Definition scan_items (items : list field) : scan :=
  foldl scan_char (Scan (Num 0) false false) (to_string <$> items).

(** A string is iterated by code point and an array by item.  A boolean or
    a number has no [length], so the first test lets it through, and is not
    iterable: the loop raises. *)
Definition isValidPassword (password : field) : completion bool :=
  match password with
  | FStr s =>
      if Z.of_nat (length s) <? 15 then Return false
      else
        let st := scan_password s in
        Return (isNum st && hasSpecialChar st && num_is (sum st) 20)
  | FArr items =>
      if Z.of_nat (length items) <? 15 then Return false
      else
        let st := scan_items items in
        Return (isNum st && hasSpecialChar st && num_is (sum st) 20)
  | FBool _ | FNum _ | FReal _ => Throw TypeError
  | FMissing | FNull => Throw TypeError
  end.

(** [undefined >= 10] is false. *)
Definition isValidPhone (phone : field) : completion bool :=
  if isStringProvided (val_of_field phone)
  then match get_length phone with
       | Return (Some n) => Return (10 <=? n)
       | Return None => Return false
       | Throw e => Throw e
       end
  else Return false.

Definition isValidRole (priority : field) : completion bool :=
  Return (isNumberProvided (val_of_field priority)
          && num_ge (parseInt priority) 1
          && num_le (parseInt priority) 5).

(** The pattern of [isValidEmail], part by part.
    Code units: 34 double quote, 45 [-], 46 [.], 64 [@], 91 [[], 93 []]. *)
Definition atom_char : regex :=
  Class (none_of (lit "<>()[]\.,;:@" ++ [34%N]) true).
Definition dotted_atoms : regex :=
  Seq (plus atom_char) (Star (Seq (chr 46) (plus atom_char))).
Definition quoted_local : regex :=
  Seq dot (Seq (chr 34) (Seq (plus dot) (chr 34))).
Definition digit_char : regex := Class (in_range 48 57).
Definition octet : regex := between 1 2 digit_char.
Definition ip_literal : regex :=
  Seq (chr 91) (Seq octet (Seq (chr 46) (Seq octet (Seq (chr 46)
    (Seq octet (Seq (chr 46) (Seq octet (chr 93)))))))).
Definition letter (c : N) : bool := in_range 97 122 c || in_range 65 90 c.
Definition label_char : regex :=
  Class (λ c, letter c || (c =? 45)%N || in_range 48 57 c).
Definition domain_name : regex :=
  Seq (plus (Seq (plus label_char) (chr 46))) (at_least 2 (Class letter)).
Definition email_pattern : regex :=
  Seq (Alt dotted_atoms quoted_local)
      (Seq (chr 64) (Alt ip_literal domain_name)).

(** [String.prototype.match] with this pattern: the match array (its
    element 0, the whole subject; the captures are not used) or [null]. *)
Definition string_match (r : regex) (s : jsstring) : option jsstring :=
  if matches r s then Some s else None.

(** Only a string has a [toLowerCase] to call. *)
Definition isValidEmail (email : field) : completion (option jsstring) :=
  match email with
  | FStr s => Return (string_match email_pattern (toLowerCase s))
  | FBool _ | FNum _ | FReal _ | FArr _ => Throw TypeError
  | FMissing | FNull => Throw TypeError
  end.

End validators.
End Validators.

(** ** Reference instances of the interfaces *)

Module Reference.
Import Js.

(** [StringToNumber] does not yield [NaN]: optional white space around
    nothing, a signed decimal literal or [Infinity], or an unsigned [0x],
    [0o], [0b] literal. *)
Fixpoint skip_digits (radix : Z) (s : jsstring) : jsstring :=
  match s with
  | c :: r => if digit_value radix c is Some _ then skip_digits radix r else s
  | [] => []
  end.

Definition has_digit (radix : Z) (s : jsstring) : bool :=
  match s with
  | c :: _ => bool_decide (is_Some (digit_value radix c))
  | [] => false
  end.

Definition all_white (s : jsstring) : bool := forallb is_white_space s.

Definition after_exponent (s : jsstring) : bool :=
  match s with
  | (101 | 69)%N :: r =>
      let r' := match r with (43 | 45)%N :: t => t | _ => r end in
      has_digit 10 r' && all_white (skip_digits 10 r')
  | _ => all_white s
  end.

Definition unsigned_decimal (s : jsstring) : bool :=
  if bool_decide (take 8 s = lit "Infinity") then all_white (drop 8 s)
  else
    match s with
    | 46%N :: r => has_digit 10 r && after_exponent (skip_digits 10 r)
    | _ =>
        has_digit 10 s &&
        match skip_digits 10 s with
        | 46%N :: r => after_exponent (skip_digits 10 r)
        | r => after_exponent r
        end
    end.

Definition non_decimal (s : jsstring) : bool :=
  match s with
  | 48%N :: (120 | 88)%N :: r => has_digit 16 r && all_white (skip_digits 16 r)
  | 48%N :: (111 | 79)%N :: r => has_digit 8 r && all_white (skip_digits 8 r)
  | 48%N :: (98 | 66)%N :: r => has_digit 2 r && all_white (skip_digits 2 r)
  | _ => false
  end.

Definition converts_to_number (s : jsstring) : bool :=
  let t := trim_start s in
  match t with
  | [] => true
  | (43 | 45)%N :: r => unsigned_decimal r
  | _ => non_decimal t || unsigned_decimal t
  end.

(** A reference instance of the helpers, after the course template this
    route comes from: [isStringProvided(c)] is [typeof c === 'string' &&
    c.length > 0]; [isNumberProvided(c)] is [typeof c === 'number' || (c !=
    null && c != '' && !isNaN(Number(c.toString())))].  It is the concrete
    instance at which statements over the interface are evaluated. *)
#[export] Instance validationFunctions : ValidationFunctions := {|
  isStringProvided c :=
    match c with JStr s => bool_decide (s ≠ []) | _ => false end;
  isNumberProvided c :=
    match c with
    | JNum _ | JReal _ => true
    | JStr s => bool_decide (s ≠ []) && converts_to_number s
    | JArr items =>
        bool_decide (Validators.to_string (FArr items) ≠ [])
        && converts_to_number (Validators.to_string (FArr items))
    | JUndefined | JNull | JBool _ => false
    end;
|}.

(** ASCII letters are lowered, every other code unit kept: the case mapping
    restricted to the strings used in the examples. *)
#[export] Instance builtins : Builtins := {|
  toLowerCase s := (λ c, if in_range 65 90 c then (c + 32)%N else c) <$> s;
|}.

End Reference.

(** ** The route *)

Module Route.
Import Js Validators.

(** What [pool.query] settles with: the rows of the result, or the error of
    the driver.  The driver declares the [constraint] of its errors as a
    string, the name of the violated constraint, or [undefined];
    [detail] stands for everything else the storage reports. *)
Record pg_error :=
  PgError { constraint_name : option jsstring; detail : jsstring }.

(** [error.constraint] *)
Definition constraint (e : pg_error) : jsval :=
  match constraint_name e with
  | Some name => JStr name
  | None => JUndefined
  end.

Inductive query_outcome :=
  | Resolved (rows : list (gmap string jsval))
  | Rejected (e : pg_error).

(** [pool] of [core/utilities]: a query takes the storage from one state to
    the next and settles. *)
Class Pool := {
  db : Type;
  pool_query : string → list jsval → db → db * query_outcome;
}.

(** The module-level constant [key], read from the environment of the
    process when the module is loaded. *)
Record key_t := Key { secret : option jsstring }.

Definition load_key (env : gmap string jsstring) : key_t :=
  {| secret := env !! "JSON_WEB_TOKEN" |}.


(** *** [jwt.sign(payload, secret, { expiresIn })]

    The token is kept symbolic: the claims that are signed and the secret
    they are signed with.  Without a callback [sign] raises when the secret
    is missing or empty, or when [expiresIn] is not a time span. *)
Record claims := Claims { role : jsval; id : jsval; iat : Z; exp : Z }.

Inductive token := Signed (c : claims) (k : jsstring).

Definition unit_seconds : list (jsstring * Z) :=
  [ (lit "seconds", 1); (lit "minutes", 60); (lit "hours", 3600);
    (lit "days", 86400); (lit "weeks", 604800) ].

Fixpoint skip_spaces (s : jsstring) : jsstring :=
  match s with
  | c :: r => if (c =? 32)%N then skip_spaces r else s
  | [] => []
  end.

Fixpoint unit_lookup (u : jsstring) (table : list (jsstring * Z)) : option Z :=
  match table with
  | (name, secs) :: rest =>
      if bool_decide (name = u) then Some secs else unit_lookup u rest
  | [] => None
  end.

(** The span, in seconds, of a string of the form [<count> <unit>]. *)
Definition timespan (s : string) : option Z :=
  match digits_prefix 10 (lit s) with
  | [] => None
  | ds =>
      match unit_lookup (skip_spaces (drop (length ds) (lit s)))
                        unit_seconds with
      | Some secs => Some (digits_value 10 ds * secs)
      | None => None
      end
  end.

Definition jwt_sign (role id : jsval) (secret : option jsstring)
    (expiresIn : string) (now : Z) : completion token :=
  match secret with
  | None | Some [] => Throw (Error "secretOrPrivateKey must have a value")
  | Some k =>
      match timespan expiresIn with
      | Some span => Return (Signed (Claims role id now (now + span)) k)
      | None => Throw (Error "expiresIn is not a timespan")
      end
  end.

(** *** Responses, console, and the state a request runs in *)

Inductive payload :=
  | Message (message : string)
  | Success (accessToken : token) (id : jsval).

Record response := Response { status : Z; sent : payload }.

Inductive caught :=
  | FromStorage (e : pg_error)
  | Raised (e : exn).

Inductive log_entry :=
  | Dir (o : gmap string field)
  | ErrorText (s : string)
  | ErrorValue (e : caught).

Section route.
Context `{VF : ValidationFunctions, B : Builtins,
          CF : CredentialingFunctions, P : Pool}.
(** The clock, in seconds, when the token is signed. *)
Variable now : Z.

(** The state a request runs in: the module-level [key] object, the
    storage, and what the handlers have done so far. *)
Record world := World {
  module_key : key_t;
  store : db;
  queries : list (string * list jsval);
  console : list log_entry;
  reply : option response;
  request_id : jsval;
}.

Definition M (A : Type) : Type := world → completion A * world.

#[local] Instance M_ret : MRet M := λ A a w, (Return a, w).
#[local] Instance M_bind : MBind M := λ A B f m w,
  match m w with
  | (Return a, w') => f a w'
  | (Throw e, w') => (Throw e, w')
  end.

Definition lift {A} (c : completion A) : M A := λ w, (c, w).

(** [response.status(code).send(body)] *)
Definition send (code : Z) (b : payload) : M () := λ w,
  (Return (), World (module_key w) (store w) (queries w) (console w)
                    (Some (Response code b)) (request_id w)).

Definition log (e : log_entry) : M () := λ w,
  (Return (), World (module_key w) (store w) (queries w) (console w ++ [e])
                    (reply w) (request_id w)).

(** [request.id = v] *)
Definition set_id (v : jsval) : M () := λ w,
  (Return (), World (module_key w) (store w) (queries w) (console w)
                    (reply w) v).

Definition get_id : M jsval := λ w, (Return (request_id w), w).

(** [key.secret] *)
Definition get_secret : M (option jsstring) := λ w,
  (Return (secret (module_key w)), w).

(** [pool.query(text, values)], to the point where the promise settles. *)
Definition query (text : string) (values : list jsval) : M query_outcome :=
  λ w,
    let '(d, out) := pool_query text values (store w) in
    (Return out, World (module_key w) d (queries w ++ [(text, values)])
                       (console w) (reply w) (request_id w)).

(** [request.body.k] *)
Definition prop (body : gmap string field) (k : string) : field :=
  default FMissing (body !! k).

(** [v == 'literal'] for a literal that is not a numeral, as the two
    constraint names: a string is compared as it is and an array as the
    string it prints as; [undefined] and [null] equal no string, and a
    boolean or a number is compared with the number the literal converts
    to, which is [NaN]. *)
Definition loose_eq (v : jsval) (s : string) : bool :=
  match v with
  | JStr t => bool_decide (t = lit s)
  | JArr items => bool_decide (to_string (FArr items) = lit s)
  | JUndefined | JNull | JBool _ | JNum _ | JReal _ => false
  end.

(** [error.constraint]: an error raised by the language has none. *)
Definition constraint_of (error : caught) : jsval :=
  match error with
  | FromStorage e => constraint e
  | Raised _ => JUndefined
  end.

(** A middleware function: the request body and [next]. *)
Definition handler : Type := gmap string field → M () → M ().

Definition emailMiddlewareCheck : handler := λ body next,
  m ← lift (isValidEmail (prop body "email"));
  if m is Some _ then next
  else send 400
    (Message "Invalid or missing email  - please refer to documentation").

Definition requiredFieldsCheck : handler := λ body next,
  if isStringProvided (val_of_field (prop body "firstname"))
     && isStringProvided (val_of_field (prop body "lastname"))
     && isStringProvided (val_of_field (prop body "username"))
  then next
  else send 400 (Message "Missing required information").

Definition phoneCheck : handler := λ body next,
  ok ← lift (isValidPhone (prop body "phone"));
  if ok : bool then next
  else send 400
    (Message "Invalid or missing phone number - please refer to documentation").

Definition passwordCheck : handler := λ body next,
  ok ← lift (isValidPassword (prop body "password"));
  if ok : bool then next
  else send 400
    (Message "Invalid or missing password - please refer to documentation").

Definition roleCheck : handler := λ body next,
  ok ← lift (isValidRole (prop body "role"));
  if ok : bool then next
  else send 400
    (Message "Invalid or missing role - please refer to documentation").

Definition insertAccountQuery : string :=
  "INSERT INTO Account(firstname, lastname, username, email, phone, account_role) VALUES ($1, $2, $3, $4, $5, $6) RETURNING account_id".

Definition insertCredentialQuery : string :=
  "INSERT INTO Account_Credential(account_id, salted_hash, salt) VALUES ($1, $2, $3)".

Definition account_values (body : gmap string field) : list jsval :=
  val_of_field <$>
    [ prop body "firstname"; prop body "lastname"; prop body "username";
      prop body "email"; prop body "phone"; prop body "role" ].

(** [{ ...request.body, password: '******' }] *)
Definition masked (body : gmap string field) : gmap string field :=
  <["password" := FStr (lit "******")]> body.

Definition server_error : M () :=
  send 500 (Message "server error - contact support").

(** The [catch] of the account insert. *)
Definition accountInsertFailed (error : caught) : M () :=
  if loose_eq (constraint_of error) "account_username_key"
  then send 400 (Message "Username exists")
  else if loose_eq (constraint_of error) "account_email_key"
  then send 400 (Message "Email exists")
  else
    log (ErrorText "DB Query error on register");;
    log (ErrorValue error);;
    server_error.

(** The [then] callback reads [result.rows[0].account_id]; with no row that
    raises inside the callback and the [catch] that follows receives it. *)
Definition accountInsert : handler := λ body next,
  log (Dir (masked body));;
  out ← query insertAccountQuery (account_values body);
  match out with
  | Resolved (row :: _) =>
      set_id (default JUndefined (row !! "account_id"));;
      next
  | Resolved [] => accountInsertFailed (Raised TypeError)
  | Rejected e => accountInsertFailed (FromStorage e)
  end.

(** The [catch] of the credential insert: it also receives what [jwt.sign]
    raises in the [then] callback. *)
Definition credentialInsertFailed (error : caught) : M () :=
  log (ErrorText "DB Query error on register");;
  log (ErrorValue error);;
  server_error.

Definition credentialInsert : handler := λ body _,
  let salt := generateSalt 32 in
  let saltedHash :=
    generateHash (val_of_field (prop body "password")) salt in
  rid ← get_id;
  out ← query insertCredentialQuery [rid; JStr saltedHash; JStr salt];
  match out with
  | Resolved _ =>
      k ← get_secret;
      match jwt_sign (val_of_field (prop body "role")) rid k
                     "14 days" now with
      | Return accessToken => send 201 (Success accessToken rid)
      | Throw e => credentialInsertFailed (Raised e)
      end
  | Rejected e => credentialInsertFailed (FromStorage e)
  end.

(** The arguments of [registerRouter.post('/register', ...)], in order. *)
Definition registerRouter_post : list handler :=
  [ emailMiddlewareCheck; requiredFieldsCheck; phoneCheck; passwordCheck;
    roleCheck; accountInsert; credentialInsert ].

(** Each handler receives as [next] the handlers that follow it. *)
Fixpoint dispatch (hs : list handler) (body : gmap string field) : M () :=
  match hs with
  | [] => mret ()
  | h :: rest => h body (dispatch rest body)
  end.

Definition start (key : key_t) (d : db) : world :=
  World key d [] [] None JUndefined.

(** One request: the final state, and the exception when a handler raised
    (the framework then answers in the route's place). *)
Definition register (key : key_t) (body : gmap string field) (d : db)
  : completion () * world :=
  dispatch registerRouter_post body (start key d).

(** The two persistence handlers alone, entered with a fresh request. *)
Definition persist (key : key_t) (body : gmap string field) (d : db)
  : completion () * world :=
  dispatch [accountInsert; credentialInsert] body (start key d).

End route.

(** Shorthands for the arguments of the two queries and for what a failure
    writes to the console. *)
Abbreviation account_query body := (insertAccountQuery, account_values body).
Abbreviation credential_values body id :=
  [ id;
    JStr (generateHash (val_of_field (prop body "password")) (generateSalt 32));
    JStr (generateSalt 32) ].
Abbreviation row_id row := (default JUndefined (row !! "account_id")).
Abbreviation failure_log error :=
  [ ErrorText "DB Query error on register"; ErrorValue error ].

End Route.

(** ** The stages, as the design document names them *)

Module Stages.
Import Js Validators Route.

Inductive reason :=
  | InvalidEmail
  | MissingFields
  | InvalidPhone
  | InvalidPassword
  | InvalidRole
  | UsernameTaken
  | EmailTaken
  | InternalError.

#[global] Instance reason_eq_dec : EqDecision reason.
Proof. solve_decision. Defined.

(** The name the design document gives to a rejection. *)
Definition reason_code (r : reason) : string :=
  match r with
  | InvalidEmail => "InvalidEmail"
  | MissingFields => "MissingFields"
  | InvalidPhone => "InvalidPhone"
  | InvalidPassword => "InvalidPassword"
  | InvalidRole => "InvalidRole"
  | UsernameTaken => "UsernameTaken"
  | EmailTaken => "EmailTaken"
  | InternalError => "InternalError"
  end.

(** The text the route sends for it. *)
Definition message_of (r : reason) : string :=
  match r with
  | InvalidEmail => "Invalid or missing email  - please refer to documentation"
  | MissingFields => "Missing required information"
  | InvalidPhone =>
      "Invalid or missing phone number - please refer to documentation"
  | InvalidPassword =>
      "Invalid or missing password - please refer to documentation"
  | InvalidRole => "Invalid or missing role - please refer to documentation"
  | UsernameTaken => "Username exists"
  | EmailTaken => "Email exists"
  | InternalError => "server error - contact support"
  end.

Definition status_of (r : reason) : Z :=
  match r with
  | InternalError => 500
  | _ => 400
  end.

Definition rejection (r : reason) : response :=
  Response (status_of r) (Message (message_of r)).

(** What a validation stage says of a request: it lets it through, refuses
    it, or raises. *)
Inductive verdict := Pass | Fail | Crash (e : exn).

Definition of_bool (c : completion bool) : verdict :=
  match c with
  | Return true => Pass
  | Return false => Fail
  | Throw e => Crash e
  end.

Section stages.
Context `{VF : ValidationFunctions, B : Builtins}.

Definition EmailCheck (body : gmap string field) : verdict :=
  match isValidEmail (prop body "email") with
  | Return (Some _) => Pass
  | Return None => Fail
  | Throw e => Crash e
  end.

Definition RequiredFieldsCheck (body : gmap string field) : verdict :=
  if isStringProvided (val_of_field (prop body "firstname"))
     && isStringProvided (val_of_field (prop body "lastname"))
     && isStringProvided (val_of_field (prop body "username"))
  then Pass else Fail.

Definition PhoneCheck (body : gmap string field) : verdict :=
  of_bool (isValidPhone (prop body "phone")).

Definition PasswordCheck (body : gmap string field) : verdict :=
  of_bool (isValidPassword (prop body "password")).

Definition RoleCheck (body : gmap string field) : verdict :=
  of_bool (isValidRole (prop body "role")).

(** Stages 1 to 5 with the rejection of each, in the documented order. *)
Definition validation_stages
  : list (reason * (gmap string field → verdict)) :=
  [ (InvalidEmail, EmailCheck); (MissingFields, RequiredFieldsCheck);
    (InvalidPhone, PhoneCheck); (InvalidPassword, PasswordCheck);
    (InvalidRole, RoleCheck) ].

Inductive gate :=
  | Passed
  | Refused (r : reason)
  | Crashed (e : exn).

(** The first stage that does not let the request through decides. *)
Fixpoint run_stages (ss : list (reason * (gmap string field → verdict)))
    (body : gmap string field) : gate :=
  match ss with
  | [] => Passed
  | (r, check) :: rest =>
      match check body with
      | Pass => run_stages rest body
      | Fail => Refused r
      | Crash e => Crashed e
      end
  end.

Definition validate (body : gmap string field) : gate :=
  run_stages validation_stages body.

End stages.

(** A response that carries a reason code of the design document. *)
Definition carries_reason_code (r : response) : Prop :=
  ∃ c, sent r = Message (reason_code c).

(** The classification of a failed account insert. *)
Definition account_failure (e : pg_error) : reason :=
  if bool_decide (constraint e = JStr (lit "account_username_key"))
  then UsernameTaken
  else if bool_decide (constraint e = JStr (lit "account_email_key"))
  then EmailTaken
  else InternalError.

End Stages.

(** ** The password and role rules, as the design document words them *)

Module Rules.
Import Js Validators.

Definition is_digit (c : N) : bool := in_range 48 57 c.

(** The sum of the values of the digit characters, one term per occurrence;
    any other character adds nothing. *)
Fixpoint digit_sum (p : jsstring) : Z :=
  match p with
  | [] => 0
  | c :: r => (if is_digit c then Z.of_N c - 48 else 0) + digit_sum r
  end.

Definition password_rule (p : jsstring) : Prop :=
  (15 ≤ length p)%nat
  ∧ (∃ c, c ∈ p ∧ c ∈ special_chars)
  ∧ (∃ c, c ∈ p ∧ is_digit c = true)
  ∧ digit_sum p = 20.

(** The code units of a decimal numeral with the given digits. *)
Definition numeral (ds : list Z) : jsstring := (λ d, Z.to_N (d + 48)) <$> ds.

(** A string that is an integer numeral: digits only, with an optional
    sign in front; its value. *)
Definition integer_numeral (r : jsstring) : option Z :=
  let '(sign, body) := strip_sign r in
  let ds := digits_prefix 10 body in
  if bool_decide (ds ≠ [] ∧ length ds = length body)
  then Some (sign * digits_value 10 ds)
  else None.

(** [r] parses as an integer in the closed range 1 to 5. *)
Definition role_rule (r : jsstring) : Prop :=
  ∃ z, integer_numeral r = Some z ∧ 1 ≤ z ≤ 5.

(** One step of the loop of [isValidPassword] on a single code unit. *)
Definition scan_unit (st : scan) (c : N) : scan :=
  if is_digit c
  then Scan (num_add (Num (Z.of_N c - 48)) (sum st)) true (hasSpecialChar st)
  else if one_of special_chars c
  then Scan (sum st) (isNum st) true
  else st.

End Rules.

(** ** A storage to run the route against *)

Module ReferenceStore.
Import Js Route.

Record tables := Tables {
  accounts : list (Z * list jsval);
  credentials : list (list jsval);
  next_id : Z;
  credential_outage : bool;
}.

Definition column (i : nat) (row : list jsval) : jsval :=
  default JNull (row !! i).

Definition taken (i : nat) (values : list jsval) (t : tables) : bool :=
  existsb (λ row, bool_decide (column i row.2 = column i values)) (accounts t).

Definition insert_account (values : list jsval) (t : tables)
  : tables * query_outcome :=
  if taken 2 values t
  then (t, Rejected (PgError (Some (lit "account_username_key"))
                             (lit "duplicate key value: username")))
  else if taken 3 values t
  then (t, Rejected (PgError (Some (lit "account_email_key"))
                             (lit "duplicate key value: email")))
  else (Tables (accounts t ++ [(next_id t, values)]) (credentials t)
               (next_id t + 1) (credential_outage t),
        Resolved [ {[ "account_id" := JNum (Num (next_id t)) ]} ]).

Definition insert_credential (values : list jsval) (t : tables)
  : tables * query_outcome :=
  if credential_outage t
  then (t, Rejected (PgError None (lit "connection terminated")))
  else (Tables (accounts t) (credentials t ++ [values]) (next_id t)
               (credential_outage t),
        Resolved []).

(** Modelled from the spec: the relational storage and its schema are
    external to the route.  [insertAccount(fields)] gives a fresh account id
    or a constraint violation for username or email, which are unique;
    [insertCredential(accountId, salt, hash)] gives ok or an error.  A
    statement that is rejected leaves the tables as they were.  The flag
    [credential_outage] makes the credential insert fail. *)
#[export] Instance pool : Pool := {|
  db := tables;
  pool_query text values t :=
    if bool_decide (text = insertAccountQuery) then insert_account values t
    else if bool_decide (text = insertCredentialQuery)
    then insert_credential values t
    else (t, Rejected (PgError None (lit "syntax error")));
|}.

(** A toy checksum of a string, as one code unit. *)
Definition checksum (s : jsstring) : N :=
  (foldl (λ acc c, (31 * acc + c) mod 65536) 7 s)%N.

(** A stand-in for the salt drawn and for the digest of the password
    followed by the salt. *)
#[export] Instance credentialingFunctions : CredentialingFunctions := {|
  generateSalt _ := lit "5a17";
  generateHash password salt :=
    match password with
    | JStr p => [checksum (p ++ salt)]
    | _ => [checksum salt]
    end;
|}.

Definition empty_tables : tables := Tables [] [] 1 false.

(** The state of the storage once [alice] below is registered. *)
Definition alice_row : Z * list jsval :=
  (1, [ JStr (lit "Alice"); JStr (lit "Liddell"); JStr (lit "alice");
        JStr (lit "Alice@Example.com"); JStr (lit "2065550100");
        JStr (lit "3") ]).

Definition with_alice : tables := Tables [alice_row] [] 2 false.

(** A storage that refuses every credential insert. *)
Definition failing_credentials : tables := Tables [] [] 1 true.

(** A request that passes every validation stage. *)
Definition alice : gmap string field :=
  {[ "firstname" := FStr (lit "Alice");
     "lastname" := FStr (lit "Liddell");
     "username" := FStr (lit "alice");
     "email" := FStr (lit "Alice@Example.com");
     "phone" := FStr (lit "2065550100");
     "password" := FStr (lit "wonder!land_992");
     "role" := FStr (lit "3") ]}.

Definition a_key : key_t := load_key {[ "JSON_WEB_TOKEN" := lit "s3cret" ]}.

(** What the account insert returns for [alice], and the tables after each
    of her two inserts. *)
Definition alice_id_row : gmap string jsval :=
  {[ "account_id" := JNum (Num 1) ]}.
Definition alice_credential : list jsval :=
  credential_values alice (JNum (Num 1)).
Definition alice_registered : tables :=
  Tables [alice_row] [alice_credential] 2 false.
Definition alice_orphaned : tables := Tables [alice_row] [] 2 true.

Definition username_taken : pg_error :=
  PgError (Some (lit "account_username_key"))
          (lit "duplicate key value: username").
Definition outage : pg_error :=
  PgError None (lit "connection terminated").

(** Her request with a malformed address and a short password. *)
Definition bad_email_and_password : gmap string field :=
  <["email" := FStr (lit "nope")]> (<["password" := FStr (lit "short")]> alice).

(** Her request with the role as the JSON number 3. *)
Definition numeric_role : gmap string field :=
  <["role" := FNum (Num 3)]> alice.

(** Her request without the [email] field and with a short password. *)
Definition no_email : gmap string field :=
  delete "email" (<["password" := FStr (lit "short")]> alice).

(** The token [alice] receives at time 0. *)
Definition alice_token : token :=
  Signed (Claims (JStr (lit "3")) (JNum (Num 1)) 0 (14 * 24 * 60 * 60))
         (lit "s3cret").

End ReferenceStore.

(** ** Measures used to state further properties of the validators and of
    the route *)

Module Shapes.
Import Js Validators Route Rules.

(** The number of digit characters of a string. *)
Fixpoint digit_count (p : jsstring) : nat :=
  match p with
  | [] => 0
  | c :: r => (if is_digit c then 1 else 0) + digit_count r
  end.

(** Between two states of the scan of [isValidPassword], what was found is
    bounded by what the string [s] holds. *)
Definition within (st st' : scan) (s : jsstring) : Prop :=
  ∃ a a', sum st = Num a ∧ sum st' = Num a'
    ∧ a ≤ a' ≤ a + digit_sum s
    ∧ (isNum st' = true → isNum st = true ∨ existsb is_digit s = true)
    ∧ (hasSpecialChar st' = true →
       hasSpecialChar st = true
       ∨ existsb (one_of special_chars) s = true).

(** Every character class of the pattern lies within [P]. *)
Fixpoint classes_within (P : N → bool) (r : regex) : Prop :=
  match r with
  | Void | Eps => True
  | Class p => ∀ c, p c = true → P c = true
  | Seq r1 r2 | Alt r1 r2 => classes_within P r1 ∧ classes_within P r2
  | Star r1 => classes_within P r1
  end.

(** Letters, digits, [-], [.], and the two brackets. *)
Definition domain_char (c : N) : bool :=
  letter c || in_range 48 57 c || (c =? 45)%N || (c =? 46)%N
  || (c =? 91)%N || (c =? 93)%N.

(** Digits and [.]. *)
Definition quad_char (c : N) : bool := in_range 48 57 c || (c =? 46)%N.

(** The storage after a list of queries, one after the other. *)
Definition replay `{P : Pool} (d : db) (qs : list (string * list jsval)) : db :=
  foldl (λ s q, (pool_query q.1 q.2 s).1) d qs.

(** A pool whose every query resolves without a row. *)
Definition silent_pool : Pool :=
  {| db := unit; pool_query _ _ _ := (tt, Resolved []) |}.

End Shapes.

(** ** The matcher decides the language of a pattern *)

Module RegexFacts.
Import Js.

Lemma nullable_spec r : nullable r = true ↔ in_lang r [].
Proof.
  split.
  - induction r as [| |p|r1 IH1 r2 IH2|r1 IH1 r2 IH2|r IH]; cbn; try done.
    + constructor.
    + intros [H1 H2]%andb_true_iff.
      change (@nil N) with (@nil N ++ @nil N). constructor; auto.
    + intros [H1|H2]%orb_true_iff; [apply in_alt_l | apply in_alt_r]; auto.
    + constructor.
  - remember [] as s eqn:Hs. intros H.
    induction H as [|p c Hp|r1 r2 s1 s2 H1 IH1 H2 IH2|r1 r2 s H IH|r1 r2 s H IH
                   |r|r s1 s2 H1 IH1 H2 IH2]; cbn; try done.
    + apply app_eq_nil in Hs as [-> ->].
      by rewrite IH1, IH2.
    + by rewrite IH.
    + rewrite IH by done. apply orb_true_r.
Qed.

Lemma in_void s : ¬ in_lang Void s.
Proof. inversion 1. Qed.

Lemma seq_spec r1 r2 s : in_lang (seq r1 r2) s ↔ in_lang (Seq r1 r2) s.
Proof.
  split.
  - intros H.
    assert (in_lang Eps []) as Heps by constructor.
    destruct r1, r2; cbn in H; try done; try (by apply in_void in H);
      by apply (in_seq Eps _ [] s).
  - intros H. inversion H as [| |? ? s1 s2 H1 H2| | | |]; subst.
    destruct r1; try (by apply in_void in H1);
      destruct r2; try (by apply in_void in H2); cbn; try done.
    all: by inversion H1.
Qed.

Lemma alt_spec r1 r2 s : in_lang (alt r1 r2) s ↔ in_lang (Alt r1 r2) s.
Proof.
  split.
  - intros H. destruct r1, r2; cbn in H; try done;
      solve [by apply in_alt_l | by apply in_alt_r].
  - intros H. inversion H as [| | |? ? ? H'|? ? ? H'| |]; subst;
      destruct r1; try (by apply in_void in H');
      destruct r2; try (by apply in_void in H'); cbn;
      solve [done | by apply in_alt_l | by apply in_alt_r].
Qed.

(** A non-empty word of [r*] starts with a non-empty word of [r]. *)
Lemma star_cons r c s :
  in_lang (Star r) (c :: s) →
  ∃ s1 s2, s = s1 ++ s2 ∧ in_lang r (c :: s1) ∧ in_lang (Star r) s2.
Proof.
  remember (Star r) as r' eqn:Hr. remember (c :: s) as w eqn:Hw.
  intros H. revert c s Hr Hw.
  induction H as [| | | | | |r0 s1 s2 H1 _ H2 IH2]; try done.
  intros c s [= ->] Hw. destruct s1 as [|c1 s1].
  - by apply IH2.
  - injection Hw as -> <-. eauto.
Qed.

Lemma in_seq_inv r1 r2 s :
  in_lang (Seq r1 r2) s →
  ∃ s1 s2, s = s1 ++ s2 ∧ in_lang r1 s1 ∧ in_lang r2 s2.
Proof. inversion 1; subst; eauto. Qed.

Lemma in_alt_inv r1 r2 s :
  in_lang (Alt r1 r2) s → in_lang r1 s ∨ in_lang r2 s.
Proof. inversion 1; subst; eauto. Qed.

Lemma deriv_spec c r s : in_lang (deriv c r) s ↔ in_lang r (c :: s).
Proof.
  revert s. induction r as [| |p|r1 IH1 r2 IH2|r1 IH1 r2 IH2|r IH];
    intros s; cbn.
  - split; inversion 1.
  - split; inversion 1.
  - destruct (p c) eqn:Hp; split; inversion 1; subst;
      (by constructor) || congruence.
  - rewrite alt_spec. split.
    + intros [H|H]%in_alt_inv.
      * apply seq_spec, in_seq_inv in H as (s1 & s2 & -> & H1 & H2).
        apply IH1 in H1. by apply (in_seq _ _ (c :: s1) s2).
      * destruct (nullable r1) eqn:Hn; [|by apply in_void in H].
        apply nullable_spec in Hn. apply IH2 in H.
        by apply (in_seq _ _ [] (c :: s)).
    + intros (s1 & s2 & Hs & H1 & H2)%in_seq_inv.
      destruct s1 as [|c1 s1]; cbn in Hs; subst.
      * apply in_alt_r. apply nullable_spec in H1 as ->. by apply IH2.
      * injection Hs as <- ->. apply in_alt_l, seq_spec.
        constructor; [by apply IH1 | done].
  - rewrite alt_spec. split.
    + intros [H|H]%in_alt_inv;
        [apply in_alt_l; by apply IH1 | apply in_alt_r; by apply IH2].
    + intros [H|H]%in_alt_inv;
        [apply in_alt_l; by apply IH1 | apply in_alt_r; by apply IH2].
  - rewrite seq_spec. split.
    + intros (s1 & s2 & -> & H1 & H2)%in_seq_inv.
      apply IH in H1. by apply (in_star_app _ (c :: s1) s2).
    + intros (s1 & s2 & -> & H1 & H2)%star_cons.
      constructor; [by apply IH | done].
Qed.

(** [matches] decides membership in the language of the pattern. *)
Lemma matches_spec r s : matches r s = true ↔ in_lang r s.
Proof.
  unfold matches. revert r. induction s as [|c s IH]; intros r; cbn.
  - apply nullable_spec.
  - rewrite IH. apply deriv_spec.
Qed.

End RegexFacts.

(** ** The password rule *)

Module PasswordRule.
Import Js Validators Rules.

Ltac unbool :=
  repeat match goal with
  | H : _ && _ = true |- _ => apply andb_true_iff in H; destruct H
  | H : _ || _ = false |- _ => apply orb_false_iff in H; destruct H
  | H : negb _ = true |- _ => apply negb_true_iff in H
  | H : negb _ = false |- _ => apply negb_false_iff in H
  | H : (_ <=? _)%N = true |- _ => apply N.leb_le in H
  | H : (_ <=? _)%N = false |- _ => apply N.leb_gt in H
  | H : (_ =? _)%N = true |- _ => apply N.eqb_eq in H
  | H : (_ =? _)%N = false |- _ => apply N.eqb_neq in H
  | H : (_ <? _) = true |- _ => apply Z.ltb_lt in H
  | H : (_ <? _) = false |- _ => apply Z.ltb_ge in H
  | H : (_ <=? _) = true |- _ => apply Z.leb_le in H
  | H : (_ <=? _) = false |- _ => apply Z.leb_gt in H
  | H : (_ =? _) = true |- _ => apply Z.eqb_eq in H
  | H : (_ =? _) = false |- _ => apply Z.eqb_neq in H
  end.

Ltac split_bool b := let E := fresh "E" in destruct b eqn:E; unbool.

Lemma digit_value_10 c :
  digit_value 10 c = if is_digit c then Some (Z.of_N c - 48) else None.
Proof.
  unfold digit_value, is_digit, in_range.
  split_bool (48 <=? c)%N; split_bool (c <=? 57)%N; cbn [andb];
    repeat match goal with
    | |- context [if ?b then _ else _] => split_bool b; cbn [andb]
    end; solve [done | lia].
Qed.

(** Case analysis on every comparison of code units in the goal. *)
Ltac cmp_cases :=
  repeat (match goal with
          | |- context [(?a <=? ?b)%N] => destruct (N.leb_spec a b)
          | |- context [(?a =? ?b)%N] => destruct (N.eqb_spec a b)
          end; try lia);
  cbn; try done.

Lemma digit_not_white_space c : is_digit c = true → is_white_space c = false.
Proof.
  unfold is_digit, is_white_space, in_range. intros Hd. unbool. cmp_cases.
Qed.

Lemma parseInt_unit c :
  parseInt_string [c] = if is_digit c then Num (Z.of_N c - 48) else NaN.
Proof.
  unfold parseInt_string. cbn [trim_start].
  destruct (is_white_space c) eqn:Hws.
  - destruct (is_digit c) eqn:Hd; [|done].
    apply digit_not_white_space in Hd. congruence.
  - unfold strip_sign.
    destruct (N.eqb_spec c 45) as [->|H45]; [done|].
    destruct (N.eqb_spec c 43) as [->|H43]; [done|].
    cbn [strip_prefix digits_prefix]. rewrite digit_value_10.
    destruct (is_digit c); [|done].
    cbn [digits_value foldl]. f_equal. lia.
Qed.

Lemma lead_not_digit hi : is_lead hi = true → is_digit hi = false.
Proof. unfold is_lead, is_digit, in_range. intros Hd. unbool. cmp_cases. Qed.

Lemma parseInt_pair hi lo :
  is_lead hi = true → parseInt_string [hi; lo] = NaN.
Proof.
  intros Hhi. unfold parseInt_string. cbn [trim_start].
  assert (is_white_space hi = false) as ->.
  { unfold is_lead, is_white_space, in_range in *. unbool. cmp_cases. }
  assert (strip_sign [hi; lo] = (1, [hi; lo])) as ->.
  { unfold strip_sign, is_lead, in_range in *. unbool. cmp_cases. }
  assert (strip_prefix [hi; lo] = (10, [hi; lo])) as ->.
  { unfold strip_prefix, is_lead, in_range in *. unbool. cmp_cases. }
  cbn [digits_prefix]. rewrite digit_value_10, lead_not_digit; done.
Qed.

Lemma matches_special_unit c :
  matches testSpecial [c] = one_of special_chars c.
Proof.
  unfold matches, testSpecial. cbn [foldl deriv].
  destruct (one_of special_chars c); done.
Qed.

Lemma lead_not_special hi :
  is_lead hi = true → one_of special_chars hi = false.
Proof.
  intros Hhi. unfold one_of. apply bool_decide_eq_false.
  unfold is_lead, in_range in Hhi. unbool.
  unfold special_chars. cbn. rewrite !elem_of_cons, elem_of_nil.
  intros Hin. repeat destruct Hin as [-> | Hin]; lia.
Qed.

Lemma matches_special_pair hi lo :
  is_lead hi = true → matches testSpecial [hi; lo] = false.
Proof.
  intros Hhi. unfold matches, testSpecial. cbn [foldl deriv].
  rewrite lead_not_special by done. done.
Qed.

Lemma digit_not_special c :
  is_digit c = true → one_of special_chars c = false.
Proof.
  intros Hd. unfold one_of. apply bool_decide_eq_false.
  unfold is_digit, in_range in Hd. unbool.
  unfold special_chars. cbn. rewrite !elem_of_cons, elem_of_nil.
  intros Hin. repeat destruct Hin as [-> | Hin]; lia.
Qed.

Lemma trail_not_digit lo : is_trail lo = true → is_digit lo = false.
Proof. unfold is_trail, is_digit, in_range. intros Hd. unbool. cmp_cases. Qed.

Lemma trail_not_special lo :
  is_trail lo = true → one_of special_chars lo = false.
Proof.
  intros Hlo. unfold one_of. apply bool_decide_eq_false.
  unfold is_trail, in_range in Hlo. unbool.
  unfold special_chars. cbn. rewrite !elem_of_cons, elem_of_nil.
  intros Hin. repeat destruct Hin as [-> | Hin]; lia.
Qed.

(** Lists two elements at a time, as [code_points] consumes them. *)
Lemma list_pair_ind {A} (P : list A → Prop) :
  P [] → (∀ a, P [a]) → (∀ a b l, P l → P (b :: l) → P (a :: b :: l)) →
  ∀ l, P l.
Proof.
  intros Hnil Hone Hstep l.
  enough (P l ∧ ∀ a, P (a :: l)) as [? _] by done.
  induction l as [|b l [IH1 IH2]]; split; auto.
Qed.

Section rule.
Context `{VF : ValidationFunctions}.

(** What the rule needs of the absent helper: it accepts the numbers that
    [parseInt] reads from a digit. *)
Hypothesis digits_are_numbers :
  ∀ d, 0 ≤ d ≤ 9 → isNumberProvided (JNum (Num d)) = true.

Lemma scan_char_unit st c : scan_char st [c] = scan_unit st c.
Proof using digits_are_numbers.
  unfold scan_char, scan_unit. rewrite parseInt_unit, matches_special_unit.
  destruct (is_digit c) eqn:Hd.
  - rewrite digits_are_numbers; [done|].
    unfold is_digit, in_range in Hd. unbool. lia.
  - cbn [isNaN negb]. rewrite andb_false_r. done.
Qed.

Lemma scan_char_pair st hi lo :
  is_lead hi = true → scan_char st [hi; lo] = st.
Proof.
  intros Hhi. unfold scan_char.
  rewrite parseInt_pair, matches_special_pair by done.
  cbn [isNaN negb]. rewrite andb_false_r. done.
Qed.

Lemma scan_unit_lead st hi : is_lead hi = true → scan_unit st hi = st.
Proof.
  intros Hhi. unfold scan_unit.
  rewrite lead_not_digit, lead_not_special; done.
Qed.

Lemma scan_unit_trail st lo : is_trail lo = true → scan_unit st lo = st.
Proof.
  intros Hlo. unfold scan_unit.
  rewrite trail_not_digit, trail_not_special; done.
Qed.

(** Iterating by code point or by code unit gives the same scan. *)
Lemma scan_code_points s st :
  foldl scan_char st (code_points s) = foldl scan_unit st s.
Proof using digits_are_numbers.
  revert st. induction s as [|a|hi lo l IHl IHlo] using list_pair_ind;
    intros st.
  - done.
  - cbn. apply scan_char_unit.
  - cbn [code_points].
    destruct (is_lead hi && is_trail lo) eqn:Hpair.
    + apply andb_true_iff in Hpair as [Hhi Hlo].
      cbn [foldl].
      rewrite scan_char_pair, (scan_unit_lead st hi), scan_unit_trail by done.
      apply IHl.
    + cbn [foldl]. rewrite scan_char_unit. apply IHlo.
Qed.

Lemma scan_units s a n h :
  foldl scan_unit (Scan (Num a) n h) s =
  Scan (Num (a + digit_sum s)) (n || existsb is_digit s)
       (h || existsb (one_of special_chars) s).
Proof.
  revert a n h. induction s as [|c s IH]; intros a n h.
  - cbn. rewrite Z.add_0_r, !orb_false_r. done.
  - cbn [foldl digit_sum existsb]. unfold scan_unit at 2.
    destruct (is_digit c) eqn:Hd.
    + rewrite (digit_not_special c Hd). cbn [sum hasSpecialChar num_add].
      rewrite IH. rewrite orb_true_r. f_equal. f_equal. lia.
    + destruct (one_of special_chars c); cbn [sum isNum hasSpecialChar];
        rewrite IH, ?orb_true_r; cbn [orb]; do 2 f_equal; lia.
Qed.

Lemma existsb_elem {A} (f : A → bool) (l : list A) :
  existsb f l = true ↔ ∃ x, x ∈ l ∧ f x = true.
Proof.
  rewrite existsb_exists. split; intros (x & Hx & Hf); exists x;
    (split; [by apply list_elem_of_In | done]).
Qed.

(** The answer of [isValidPassword] on a string, in closed form. *)
Lemma isValidPassword_closed_form (p : jsstring) :
  isValidPassword (FStr p) =
  Return (negb (Z.of_nat (length p) <? 15)
          && (existsb is_digit p
              && existsb (one_of special_chars) p
              && (digit_sum p =? 20))).
Proof using digits_are_numbers.
  unfold isValidPassword, scan_password.
  rewrite scan_code_points, scan_units.
  destruct (Z.of_nat (length p) <? 15); [done|].
  cbn [sum isNum hasSpecialChar num_is orb negb andb Z.add]. done.
Qed.

(** C1. On every password string, [isValidPassword] returns, and it returns
    [true] exactly when the string has at least 15 code units, contains a
    character of the special set, contains a digit, and the values of its
    digit characters, counted once per occurrence, add up to exactly 20;
    characters that are neither digits nor special add nothing. *)
Theorem isValidPassword_iff_rule (p : jsstring) :
  (∃ b, isValidPassword (FStr p) = Return b)
  ∧ (isValidPassword (FStr p) = Return true ↔ password_rule p).
Proof using digits_are_numbers.
  rewrite isValidPassword_closed_form. split; [eauto|].
  unfold password_rule. split.
  - intros [= Hb]. unbool.
    repeat split.
    + lia.
    + match goal with
      | Hex : existsb (one_of _) _ = true |- _ =>
          apply existsb_elem in Hex as (c & Hc & Hin)
      end.
      exists c. split; [done|]. by apply bool_decide_eq_true in Hin.
    + by apply existsb_elem.
    + done.
  - intros (Hlen & (c & Hc & Hs) & Hdig & Hsum). f_equal.
    repeat (apply andb_true_iff; split).
    + apply negb_true_iff, Z.ltb_ge. lia.
    + by apply existsb_elem.
    + apply existsb_elem. exists c. split; [done|].
      by apply bool_decide_eq_true.
    + by apply Z.eqb_eq.
Qed.

End rule.

Import Reference.

(** The rule at a concrete password, with the reference helper. *)
Lemma isValidPassword_iff_rule_witness :
  (∀ d, 0 ≤ d ≤ 9 → isNumberProvided (JNum (Num d)) = true)
  ∧ (∃ b, isValidPassword (FStr (lit "wonder!land_992")) = Return b)
  ∧ (isValidPassword (FStr (lit "wonder!land_992")) = Return true
     ↔ password_rule (lit "wonder!land_992")).
Proof.
  split; [done|].
  apply (isValidPassword_iff_rule (VF := validationFunctions)); done.
Defined.

End PasswordRule.

(** ** The role rule *)

Module RoleRule.
Import Js Validators Rules PasswordRule.

Lemma digit_value_is_digit c d : digit_value 10 c = Some d → is_digit c = true.
Proof. rewrite digit_value_10. by destruct (is_digit c). Qed.

(** A string that starts with a decimal digit and has no [0x] in front is
    read as the value of its leading digits. *)
Lemma parseInt_leading_digits s :
  digits_prefix 10 s ≠ [] → strip_prefix s = (10, s) →
  parseInt_string s = Num (digits_value 10 (digits_prefix 10 s)).
Proof.
  intros Hds Hpre. destruct s as [|c r]; [done|].
  cbn [digits_prefix] in Hds.
  destruct (digit_value 10 c) as [d|] eqn:Hd; [|done].
  apply digit_value_is_digit in Hd as Hc.
  unfold parseInt_string. cbn [trim_start].
  rewrite (digit_not_white_space c Hc).
  assert (strip_sign (c :: r) = (1, c :: r)) as ->.
  { unfold strip_sign, is_digit, in_range in *. unbool. cmp_cases. }
  rewrite Hpre.
  destruct (digits_prefix 10 (c :: r)) as [|d0 ds] eqn:Hp.
  - cbn [digits_prefix] in Hp. by rewrite Hd in Hp.
  - f_equal. lia.
Qed.

Lemma digit_value_numeral d : 0 ≤ d ≤ 9 → digit_value 10 (Z.to_N (d + 48)) = Some d.
Proof.
  intros Hd. rewrite digit_value_10. unfold is_digit, in_range.
  destruct (N.leb_spec 48 (Z.to_N (d + 48))); [|lia].
  destruct (N.leb_spec (Z.to_N (d + 48)) 57); [|lia].
  cbn [andb]. f_equal. lia.
Qed.

Lemma digits_prefix_numeral ds rest :
  Forall (λ d, 0 ≤ d ≤ 9) ds → digits_prefix 10 rest = [] →
  digits_prefix 10 (numeral ds ++ rest) = ds.
Proof.
  intros Hds Hrest. induction Hds as [|d ds Hd _ IH]; [done|].
  cbn [numeral fmap list_fmap app digits_prefix].
  rewrite digit_value_numeral by done. f_equal. apply IH.
Qed.

Lemma strip_prefix_numeral ds frac :
  Forall (λ d, 0 ≤ d ≤ 9) ds →
  strip_prefix (numeral ds ++ 46%N :: frac) = (10, numeral ds ++ 46%N :: frac).
Proof.
  intros Hds. destruct Hds as [|d ds Hd Hds]; [by destruct frac|].
  destruct Hds as [|d' ds Hd' Hds].
  - cbn. by rewrite andb_false_r.
  - cbn [numeral fmap list_fmap app strip_prefix].
    destruct (N.eqb_spec (Z.to_N (d' + 48)) 120); [lia|].
    destruct (N.eqb_spec (Z.to_N (d' + 48)) 88); [lia|].
    by rewrite andb_false_r.
Qed.

(** A numeral with a fraction part is read as its integer part. *)
Lemma parseInt_fraction ds frac :
  ds ≠ [] → Forall (λ d, 0 ≤ d ≤ 9) ds →
  parseInt_string (numeral ds ++ 46%N :: frac) = Num (digits_value 10 ds).
Proof.
  intros Hne Hds.
  rewrite parseInt_leading_digits.
  - by rewrite digits_prefix_numeral.
  - by rewrite digits_prefix_numeral.
  - by apply strip_prefix_numeral.
Qed.

Lemma digits_prefix_length s : (length (digits_prefix 10 s) ≤ length s)%nat.
Proof.
  induction s as [|c r IH]; [done|]. cbn.
  destruct (digit_value 10 c); cbn; lia.
Qed.

(** An integer numeral is read as its value. *)
Lemma parseInt_integer_numeral r z :
  integer_numeral r = Some z → parseInt_string r = Num z.
Proof.
  unfold integer_numeral.
  destruct (strip_sign r) as [sign body] eqn:Hsign.
  case_bool_decide as Hds; [|done]. destruct Hds as [Hne Hlen].
  intros [= <-].
  assert (strip_prefix body = (10, body)) as Hpre.
  { destruct body as [|a [|b t]]; [done..|].
    unfold strip_prefix. cbn [digits_prefix] in Hlen.
    destruct (digit_value 10 a) as [da|]; [|done].
    destruct (digit_value 10 b) as [db|] eqn:Hb.
    - apply digit_value_is_digit in Hb.
      unfold is_digit, in_range in Hb. unbool. cmp_cases.
    - cbn in Hlen. lia. }
  destruct body as [|c t]; [done|].
  cbn [digits_prefix] in Hne.
  destruct (digit_value 10 c) as [d|] eqn:Hd; [|done].
  apply digit_value_is_digit in Hd as Hc.
  assert (trim_start r = r ∧ strip_sign (trim_start r) = (sign, c :: t))
    as [Htrim Hstrip].
  { destruct r as [|a r']; [done|]. unfold strip_sign in Hsign.
    cbn [trim_start].
    destruct (N.eqb_spec a 45) as [->|]; [by injection Hsign as <- ->|].
    destruct (N.eqb_spec a 43) as [->|]; [by injection Hsign as <- ->|].
    injection Hsign as <- -> ->.
    rewrite (digit_not_white_space c Hc). split; [done|].
    unfold strip_sign.
    destruct (N.eqb_spec c 45); [done|]. by destruct (N.eqb_spec c 43). }
  unfold parseInt_string. rewrite Hstrip, Hpre.
  destruct (digits_prefix 10 (c :: t)) eqn:Hp; [|done].
  cbn [digits_prefix] in Hp. by rewrite Hd in Hp.
Qed.

Lemma in_1_5 (z : Z) : (1 <=? z) && (z <=? 5) = bool_decide (1 ≤ z ≤ 5).
Proof.
  case_bool_decide as Hz.
  - apply andb_true_iff. split; [apply Z.leb_le | apply Z.leb_le]; lia.
  - apply andb_false_iff.
    destruct (Z.leb_spec 1 z); [right | by left]. apply Z.leb_gt. lia.
Qed.

Section role.
Context `{VF : ValidationFunctions}.

Lemma isValidRole_string r :
  isValidRole (FStr r) =
  Return (isNumberProvided (JStr r)
          && (num_ge (parseInt_string r) 1 && num_le (parseInt_string r) 5)).
Proof. unfold isValidRole. by rewrite andb_assoc. Qed.

Lemma isValidRole_true_iff r :
  isValidRole (FStr r) = Return true ↔
  isNumberProvided (JStr r) = true
  ∧ ∃ z, parseInt_string r = Num z ∧ 1 ≤ z ≤ 5.
Proof.
  rewrite isValidRole_string. split.
  - intros [= Hb]. apply andb_true_iff in Hb as [Hnum Hb].
    split; [done|].
    destruct (parseInt_string r) as [|z]; [done|].
    exists z. split; [done|]. cbn in Hb. unbool. lia.
  - intros [Hnum (z & Hz & Hrange)]. rewrite Hnum, Hz.
    cbn [num_ge num_le]. rewrite in_1_5. by rewrite bool_decide_eq_true_2.
Qed.

(** On a role string [r], [isValidRole] returns [true] exactly when
    [isNumberProvided] accepts [r] and [parseInt] reads from the front of
    [r] an integer between 1 and 5.  [parseInt] ignores what follows that
    integer: an integer numeral is judged by its value, a numeral with a
    fraction part by its integer part, and a string from which no integer is
    read is rejected. *)
Theorem isValidRole_leading_integer :
  (∀ r, isValidRole (FStr r) = Return true ↔
        isNumberProvided (JStr r) = true
        ∧ ∃ z, parseInt_string r = Num z ∧ 1 ≤ z ≤ 5)
  ∧ (∀ r z, integer_numeral r = Some z →
        isValidRole (FStr r) =
        Return (isNumberProvided (JStr r) && bool_decide (1 ≤ z ≤ 5)))
  ∧ (∀ ds frac, ds ≠ [] → Forall (λ d, 0 ≤ d ≤ 9) ds →
        isValidRole (FStr (numeral ds ++ 46%N :: frac)) =
        Return (isNumberProvided (JStr (numeral ds ++ 46%N :: frac))
                && bool_decide (1 ≤ digits_value 10 ds ≤ 5)))
  ∧ (∀ r, parseInt_string r = NaN → isValidRole (FStr r) = Return false).
Proof.
  split; [|split; [|split]].
  - apply isValidRole_true_iff.
  - intros r z Hz. rewrite isValidRole_string.
    rewrite (parseInt_integer_numeral r z Hz). cbn [num_ge num_le].
    by rewrite in_1_5.
  - intros ds frac Hne Hds. rewrite isValidRole_string.
    rewrite parseInt_fraction by done. cbn [num_ge num_le].
    by rewrite in_1_5.
  - intros r Hr. rewrite isValidRole_string, Hr. cbn [num_ge].
    by rewrite andb_false_r.
Qed.

(** Whether [isValidRole] accepts the integer numerals from 1 to 5 and no
    other string is for [isNumberProvided] to decide: it does exactly when,
    of the strings from which [parseInt] reads an integer from 1 to 5, the
    helper accepts the integer numerals and rejects the others. *)
Theorem isValidRole_rule_depends_on_helper :
  (∀ r, isValidRole (FStr r) = Return true ↔ role_rule r)
  ↔ (∀ r z, parseInt_string r = Num z → 1 ≤ z ≤ 5 →
            (isNumberProvided (JStr r) = true ↔ role_rule r)).
Proof.
  split.
  - intros Hrule r z Hz Hrange. rewrite <- Hrule, isValidRole_true_iff.
    split; [|by intros [? _]]. intros Hnum. split; [done|]. by exists z.
  - intros Hhelper r. rewrite isValidRole_true_iff. split.
    + intros [Hnum (z & Hz & Hrange)]. by apply (Hhelper r z).
    + intros (z & Hz & Hrange).
      pose proof (parseInt_integer_numeral r z Hz) as Hparse.
      split; [|by exists z].
      apply (Hhelper r z Hparse Hrange). by exists z.
Qed.

End role.

Import Reference.

(** The numeral [3.7], with the reference helper: read as 3 and accepted. *)
Lemma isValidRole_leading_integer_witness :
  ([3] ≠ [] ∧ Forall (λ d, 0 ≤ d ≤ 9) [3])
  ∧ isValidRole (FStr (numeral [3] ++ 46%N :: lit "7")) =
    Return (isNumberProvided (JStr (numeral [3] ++ 46%N :: lit "7"))
            && bool_decide (1 ≤ digits_value 10 [3] ≤ 5)).
Proof.
  assert ([3] ≠ [] ∧ Forall (λ d, 0 ≤ d ≤ 9) [3]) as Hds.
  { split; [done|]. repeat constructor; lia. }
  split; [exact Hds|].
  apply (proj1 (proj2 (proj2
    (isValidRole_leading_integer (VF := validationFunctions)))));
    apply Hds.
Defined.

End RoleRule.

(** ** The validators on strings and on missing fields *)

Module Totality.
Import Js Validators.

Section totality.
Context `{VF : ValidationFunctions, B : Builtins}.

(** C6. The code on a field that is missing or is not a string.
    [isValidEmail] calls [toLowerCase] on its argument and
    [isValidPassword] reads its [length] and iterates it: on [undefined]
    and on [null] both raise a [TypeError] instead of returning [false];
    so does [isValidEmail] on a boolean, a number and an array, and
    [isValidPassword] on a boolean and a number.  This holds whatever the
    helpers answer. *)
Theorem validators_raise_on_missing :
  isValidEmail FMissing = Throw TypeError
  ∧ isValidEmail FNull = Throw TypeError
  ∧ isValidPassword FMissing = Throw TypeError
  ∧ isValidPassword FNull = Throw TypeError
  ∧ (∀ b, isValidEmail (FBool b) = Throw TypeError)
  ∧ (∀ n, isValidEmail (FNum n) = Throw TypeError)
  ∧ (∀ items, isValidEmail (FArr items) = Throw TypeError)
  ∧ (∀ b, isValidPassword (FBool b) = Throw TypeError)
  ∧ (∀ n, isValidPassword (FNum n) = Throw TypeError).
Proof. done. Qed.

(** The other two validators return on every field when the helpers do:
    [isValidRole] always, and [isValidPhone] unless [isStringProvided]
    accepts [undefined] or [null]. *)
Lemma role_and_phone_return v :
  (∃ b : bool, isValidRole v = Return b)
  ∧ (isStringProvided JUndefined = false →
     isStringProvided JNull = false →
     ∃ b : bool, isValidPhone v = Return b).
Proof.
  split; [by eexists|]. intros Hu Hn. unfold isValidPhone.
  destruct v; cbn [val_of_field get_length]; rewrite ?Hu, ?Hn; clear Hu Hn;
    try destruct (isStringProvided _); by eexists.
Qed.

End totality.

End Totality.

(** ** The route, stage by stage *)

Module RouteFacts.
Import Js Validators Route Stages Rules.

Ltac run_route :=
  unfold register, registerRouter_post, dispatch, emailMiddlewareCheck,
    requiredFieldsCheck, phoneCheck, passwordCheck, roleCheck, accountInsert,
    credentialInsert, accountInsertFailed, credentialInsertFailed,
    server_error, mbind, M_bind, mret, M_ret, lift, send, log, query, set_id,
    get_id, get_secret, start;
  cbn [fst snd module_key store queries console reply request_id app].

Section facts.
Context `{VF : ValidationFunctions, B : Builtins,
          CF : CredentialingFunctions, P : Pool}.
Variable now : Z.
Variable key : key_t.

(** The five validation handlers behave as the staged validation, and hand
    over to the persistence handlers when every stage passes. *)
Lemma register_validate body d :
  register now key body d =
  match validate body with
  | Passed => persist now key body d
  | Refused r =>
      (Return (), World key d [] [] (Some (rejection r)) JUndefined)
  | Crashed e => (Throw e, start key d)
  end.
Proof.
  unfold validate, validation_stages, run_stages, persist.
  unfold EmailCheck, RequiredFieldsCheck, PhoneCheck, PasswordCheck,
    RoleCheck, of_bool.
  run_route.
  destruct (isValidEmail (prop body "email")) as [[m|]|e]; try done.
  destruct (isStringProvided _ && isStringProvided _ && isStringProvided _);
    try done.
  destruct (isValidPhone (prop body "phone")) as [[|]|e]; try done.
  destruct (isValidPassword (prop body "password")) as [[|]|e]; try done.
  destruct (isValidRole (prop body "role")) as [[|]|e]; done.
Qed.

Lemma loose_eq_decide e s :
  loose_eq (constraint e) s = bool_decide (constraint e = JStr (lit s)).
Proof.
  unfold constraint. destruct (constraint_name e) as [name|]; cbn.
  - apply bool_decide_ext. split; congruence.
  - symmetry. by apply bool_decide_eq_false.
Qed.

(** The account insert is rejected. *)
Lemma persist_account_rejected body d d1 e :
  pool_query insertAccountQuery (account_values body) d = (d1, Rejected e) →
  persist now key body d =
  (Return (),
   World key d1 [account_query body]
     (Dir (masked body) ::
        match account_failure e with
        | InternalError => failure_log (FromStorage e)
        | _ => []
        end)
     (Some (rejection (account_failure e))) JUndefined).
Proof.
  intros Hq. unfold persist, account_failure. run_route. rewrite Hq.
  cbn [constraint_of]. rewrite !loose_eq_decide.
  destruct (bool_decide (constraint e = _)); [done|].
  destruct (bool_decide (constraint e = _)); done.
Qed.

(** The account insert resolves without a row. *)
Lemma persist_no_row body d d1 :
  pool_query insertAccountQuery (account_values body) d = (d1, Resolved []) →
  persist now key body d =
  (Return (),
   World key d1 [account_query body]
     (Dir (masked body) :: failure_log (Raised TypeError))
     (Some (rejection InternalError)) JUndefined).
Proof. intros Hq. unfold persist. run_route. by rewrite Hq. Qed.

(** The account insert resolves and the credential insert is rejected. *)
Lemma persist_credential_rejected body d d1 row rows d2 e :
  pool_query insertAccountQuery (account_values body) d
    = (d1, Resolved (row :: rows)) →
  pool_query insertCredentialQuery (credential_values body (row_id row)) d1
    = (d2, Rejected e) →
  persist now key body d =
  (Return (),
   World key d2
     [ account_query body;
       (insertCredentialQuery, credential_values body (row_id row)) ]
     (Dir (masked body) :: failure_log (FromStorage e))
     (Some (rejection InternalError)) (row_id row)).
Proof.
  intros Hq1 Hq2. unfold persist. run_route. rewrite Hq1.
  cbn [store module_key]. by rewrite Hq2.
Qed.

(** Both inserts resolve. *)
Lemma persist_both_resolved body d d1 row rows d2 rows2 :
  pool_query insertAccountQuery (account_values body) d
    = (d1, Resolved (row :: rows)) →
  pool_query insertCredentialQuery (credential_values body (row_id row)) d1
    = (d2, Resolved rows2) →
  persist now key body d =
  (Return (),
   World key d2
     [ account_query body;
       (insertCredentialQuery, credential_values body (row_id row)) ]
     (Dir (masked body) ::
        match jwt_sign (val_of_field (prop body "role")) (row_id row)
                       (secret key) "14 days" now with
        | Return _ => []
        | Throw e => failure_log (Raised e)
        end)
     (Some
        match jwt_sign (val_of_field (prop body "role")) (row_id row)
                       (secret key) "14 days" now with
        | Return accessToken => Response 201 (Success accessToken (row_id row))
        | Throw _ => rejection InternalError
        end)
     (row_id row)).
Proof.
  intros Hq1 Hq2. unfold persist. run_route. rewrite Hq1.
  cbn [store module_key]. rewrite Hq2. cbn [module_key].
  by destruct (jwt_sign _ _ _ _ _).
Qed.

Lemma jwt_sign_14_days r i k :
  k ≠ [] →
  jwt_sign r i (Some k) "14 days" now =
  Return (Signed (Claims r i now (now + 14 * 86400)) k).
Proof. intros Hk. by destruct k. Qed.

Lemma jwt_sign_no_secret r i k :
  k = None ∨ k = Some [] →
  jwt_sign r i k "14 days" now =
  Throw (Error "secretOrPrivateKey must have a value").
Proof. by intros [-> | ->]. Qed.

(** Every way the persistence handlers can end. *)
Lemma persist_cases body d :
  (∃ d1 e,
      pool_query insertAccountQuery (account_values body) d
        = (d1, Rejected e))
  ∨ (∃ d1,
      pool_query insertAccountQuery (account_values body) d
        = (d1, Resolved []))
  ∨ (∃ d1 row rows d2 e,
      pool_query insertAccountQuery (account_values body) d
        = (d1, Resolved (row :: rows))
      ∧ pool_query insertCredentialQuery
          (credential_values body (row_id row)) d1 = (d2, Rejected e))
  ∨ (∃ d1 row rows d2 rows2,
      pool_query insertAccountQuery (account_values body) d
        = (d1, Resolved (row :: rows))
      ∧ pool_query insertCredentialQuery
          (credential_values body (row_id row)) d1 = (d2, Resolved rows2)).
Proof.
  destruct (pool_query insertAccountQuery (account_values body) d)
    as [d1 [[|row rows]|e]] eqn:Hq1; [eauto 10| |eauto 10].
  destruct (pool_query insertCredentialQuery
              (credential_values body (row_id row)) d1)
    as [d2 [rows2|e]] eqn:Hq2; eauto 15.
Qed.

(** The persistence handlers always answer: with the success response or
    with one of three rejections. *)
Lemma persist_reply body d :
  (persist now key body d).1 = Return ()
  ∧ ∃ r, reply (persist now key body d).2 = Some r
    ∧ ((∃ k (row : gmap string jsval),
          secret key = Some k ∧ k ≠ []
          ∧ r = Response 201
                  (Success
                     (Signed (Claims (val_of_field (prop body "role"))
                                     (row_id row) now (now + 14 * 86400)) k)
                     (row_id row)))
       ∨ r = rejection UsernameTaken
       ∨ r = rejection EmailTaken
       ∨ r = rejection InternalError).
Proof.
  destruct (persist_cases body d)
    as [(d1 & e & Hq1) | [(d1 & Hq1) | [(d1 & row & rows & d2 & e & Hq1 & Hq2)
       | (d1 & row & rows & d2 & rows2 & Hq1 & Hq2)]]].
  - rewrite (persist_account_rejected _ _ _ _ Hq1). split; [done|].
    eexists. split; [done|]. unfold account_failure.
    repeat case_bool_decide; eauto.
  - rewrite (persist_no_row _ _ _ Hq1). eauto 10.
  - rewrite (persist_credential_rejected _ _ _ _ _ _ _ Hq1 Hq2). eauto 10.
  - rewrite (persist_both_resolved _ _ _ _ _ _ _ Hq1 Hq2). split; [done|].
    eexists. split; [done|].
    destruct (secret key) as [[|c k]|] eqn:Hk.
    + rewrite jwt_sign_no_secret by eauto. eauto 10.
    + rewrite jwt_sign_14_days by done. left. by exists (c :: k), row.
    + rewrite jwt_sign_no_secret by eauto. eauto 10.
Qed.

(** C2. The code on a request without an email.  [isValidEmail] calls
    [toLowerCase] on the field as it comes: when [email] is absent from the
    body, or is [null], the first handler raises a [TypeError] and the
    chain ends there, whatever the other fields hold, the password
    included.  The route sends nothing, so the email rejection, whose text
    names a missing email, is not what such a request gets. *)
Theorem missing_email_is_not_rejected body d :
  register now key (delete "email" body) d = (Throw TypeError, start key d)
  ∧ register now key (<["email" := FNull]> body) d
      = (Throw TypeError, start key d)
  ∧ reply (start key d) = None
  ∧ EmailCheck (delete "email" body) = Crash TypeError
  ∧ EmailCheck (<["email" := FNull]> body) = Crash TypeError.
Proof.
  assert (EmailCheck (delete "email" body) = Crash TypeError) as Hdel.
  { unfold EmailCheck, prop. by rewrite lookup_delete_eq. }
  assert (EmailCheck (<["email" := FNull]> body) = Crash TypeError) as Hnull.
  { unfold EmailCheck, prop. by rewrite lookup_insert_eq. }
  split_and!; [| |done|done|done].
  - rewrite register_validate.
    unfold validate, validation_stages, run_stages. by rewrite Hdel.
  - rewrite register_validate.
    unfold validate, validation_stages, run_stages. by rewrite Hnull.
Qed.

(** The five validation handlers run as the stages EmailCheck,
    RequiredFieldsCheck, PhoneCheck, PasswordCheck, RoleCheck, in this
    order, and the first stage that does not pass decides the outcome.  A
    request whose email check and password check both answer no gets the
    email rejection and not the password rejection, and the password
    rejection is only sent when the three stages before PasswordCheck have
    passed. *)
Theorem validation_in_order body d :
  register now key body d =
    match validate body with
    | Passed => persist now key body d
    | Refused r =>
        (Return (), World key d [] [] (Some (rejection r)) JUndefined)
    | Crashed e => (Throw e, start key d)
    end
  ∧ (EmailCheck body = Fail → PasswordCheck body = Fail →
     reply (register now key body d).2 = Some (rejection InvalidEmail)
     ∧ reply (register now key body d).2 ≠ Some (rejection InvalidPassword))
  ∧ (reply (register now key body d).2 = Some (rejection InvalidPassword) →
     EmailCheck body = Pass ∧ RequiredFieldsCheck body = Pass
     ∧ PhoneCheck body = Pass ∧ PasswordCheck body = Fail).
Proof.
  split; [apply register_validate|]. rewrite register_validate.
  unfold validate, validation_stages, run_stages. split.
  - intros -> _. done.
  - destruct (EmailCheck body); [|done..].
    destruct (RequiredFieldsCheck body); [|done..].
    destruct (PhoneCheck body); [|done..].
    destruct (PasswordCheck body); [|done..].
    intros Hr. exfalso.
    destruct (RoleCheck body); [|done..].
    destruct (persist_reply body d) as (_ & r & Hreply & Hcases).
    rewrite Hreply in Hr. injection Hr as ->.
    destruct Hcases as [(k & row & _ & _ & [=]) | [[=] | [[=] | [=]]]].
Qed.

(** C3, as amended.  Every response of the route that is not the 201
    success response is one of eight fixed pairs of a status and a [message]
    text, one per kind of rejection: status 400 with one of seven texts, or
    status 500 with the text of the internal error.  The texts are pairwise
    different. *)
Theorem rejections_carry_fixed_messages body d r :
  reply (register now key body d).2 = Some r →
  status r ≠ 201 →
  (∃ c, r = Response (status_of c) (Message (message_of c)))
  ∧ (∀ c c', message_of c = message_of c' → c = c').
Proof.
  intros Hr Hstatus. split; [|by intros [] []].
  rewrite register_validate in Hr. destruct (validate body) as [|c|e].
  - destruct (persist_reply body d) as (_ & r' & Hreply & Hcases).
    rewrite Hreply in Hr. injection Hr as ->.
    destruct Hcases as [(k & row & _ & _ & ->) | [-> | [-> | ->]]];
      [done | by eexists..].
  - injection Hr as <-. by exists c.
  - done.
Qed.

(** C4. When the account insert is rejected, the reply is decided by the
    constraint the error names: the username key gives the UsernameTaken
    rejection, the email key the EmailTaken rejection, and any other error
    the 500 response with its fixed text, which carries nothing of the
    error.  The credential insert is not attempted. *)
Theorem account_insert_failure body d d1 e :
  validate body = Passed →
  pool_query insertAccountQuery (account_values body) d = (d1, Rejected e) →
  let w := (register now key body d).2 in
  (constraint e = JStr (lit "account_username_key") →
     reply w = Some (rejection UsernameTaken))
  ∧ (constraint e = JStr (lit "account_email_key") →
     reply w = Some (rejection EmailTaken))
  ∧ (constraint e ≠ JStr (lit "account_username_key") →
     constraint e ≠ JStr (lit "account_email_key") →
     reply w = Some (Response 500 (Message "server error - contact support")))
  ∧ queries w = [account_query body]
  ∧ store w = d1.
Proof.
  intros Hv Hq. rewrite register_validate, Hv.
  rewrite (persist_account_rejected _ _ _ _ Hq). cbn [snd reply queries store].
  unfold account_failure. repeat split.
  - intros ->. done.
  - intros ->. done.
  - intros Hu He. by rewrite !bool_decide_eq_false_2.
Qed.

(** C5. When the credential insert is rejected after the account insert
    resolved, the route answers with the InternalError rejection and issues
    no further query: the storage is left as the rejected insert left it,
    so whatever a rejected statement leaves unchanged, the new account row
    for one, is as the account insert made it. *)
Theorem credential_failure_keeps_account body d d1 row rows d2 e :
  validate body = Passed →
  pool_query insertAccountQuery (account_values body) d
    = (d1, Resolved (row :: rows)) →
  pool_query insertCredentialQuery (credential_values body (row_id row)) d1
    = (d2, Rejected e) →
  let w := (register now key body d).2 in
  reply w = Some (rejection InternalError)
  ∧ queries w =
      [ account_query body;
        (insertCredentialQuery, credential_values body (row_id row)) ]
  ∧ store w = d2
  ∧ ∀ (A : Type) (view : db → A),
      (∀ text values s s' err,
          pool_query text values s = (s', Rejected err) → view s' = view s) →
      view (store w) = view d1.
Proof.
  intros Hv Hq1 Hq2. rewrite register_validate, Hv.
  rewrite (persist_credential_rejected _ _ _ _ _ _ _ Hq1 Hq2).
  cbn [snd reply queries store]. repeat split.
  intros A view Hframe. by eapply Hframe.
Qed.


(** What the route writes to the console, case by case. *)
Lemma register_console body d :
  validate body = Passed →
  let w := (register now key body d).2 in
  console w = [Dir (masked body)]
  ∨ (∃ e,
       console w = Dir (masked body) :: failure_log (FromStorage e)
       ∧ ((∃ d1,
             pool_query insertAccountQuery (account_values body) d
               = (d1, Rejected e))
          ∨ (∃ d1 (row : gmap string jsval) rows d2,
               pool_query insertAccountQuery (account_values body) d
                 = (d1, Resolved (row :: rows))
               ∧ pool_query insertCredentialQuery
                   (credential_values body (row_id row)) d1
                 = (d2, Rejected e))))
  ∨ console w = Dir (masked body) :: failure_log (Raised TypeError)
  ∨ ((secret key = None ∨ secret key = Some [])
     ∧ console w =
         Dir (masked body) ::
         failure_log (Raised (Error "secretOrPrivateKey must have a value"))).
Proof.
  intros Hv. cbn zeta. rewrite register_validate, Hv.
  destruct (persist_cases body d)
    as [(d1 & e & Hq1) | [(d1 & Hq1)
       | [(d1 & row & rows & d2 & e & Hq1 & Hq2)
       | (d1 & row & rows & d2 & rows2 & Hq1 & Hq2)]]].
  - rewrite (persist_account_rejected _ _ _ _ Hq1). cbn [snd console].
    destruct (account_failure e); eauto 10.
  - rewrite (persist_no_row _ _ _ Hq1). eauto 10.
  - rewrite (persist_credential_rejected _ _ _ _ _ _ _ Hq1 Hq2).
    cbn [snd console]. right. left. exists e. split; [done|].
    right. by exists d1, row, rows, d2.
  - rewrite (persist_both_resolved _ _ _ _ _ _ _ Hq1 Hq2). cbn [snd console].
    destruct (secret key) as [[|c k]|] eqn:Hk.
    + rewrite jwt_sign_no_secret by eauto. eauto 10.
    + rewrite jwt_sign_14_days by done. by left.
    + rewrite jwt_sign_no_secret by eauto. eauto 10.
Qed.


(** When the module's key holds no secret, or the empty string, a request
    that passes validation and both inserts fails at [jwt.sign], inside
    the request: the error is logged and the reply is the InternalError
    rejection, after the account and the credential have been stored. *)
Theorem unconfigured_secret_fails_after_storing
    body d d1 row rows d2 rows2 :
  secret key = None ∨ secret key = Some [] →
  validate body = Passed →
  pool_query insertAccountQuery (account_values body) d
    = (d1, Resolved (row :: rows)) →
  pool_query insertCredentialQuery (credential_values body (row_id row)) d1
    = (d2, Resolved rows2) →
  register now key body d =
  (Return (),
   World key d2
     [ account_query body;
       (insertCredentialQuery, credential_values body (row_id row)) ]
     (Dir (masked body) ::
        failure_log (Raised (Error "secretOrPrivateKey must have a value")))
     (Some (rejection InternalError)) (row_id row)).
Proof.
  intros Hk Hv Hq1 Hq2. rewrite register_validate, Hv.
  rewrite (persist_both_resolved _ _ _ _ _ _ _ Hq1 Hq2).
  by rewrite jwt_sign_no_secret.
Qed.

Lemma valid_password_shape body :
  PasswordCheck body = Pass →
  (∃ s, prop body "password" = FStr s ∧ (15 ≤ length s)%nat)
  ∨ (∃ items, prop body "password" = FArr items ∧ (15 ≤ length items)%nat).
Proof.
  unfold PasswordCheck, of_bool, isValidPassword.
  destruct (prop body "password") as [| |b|n|t|s|items]; try done.
  - destruct (Z.ltb_spec (Z.of_nat (length s)) 15); [done|].
    intros _. left. exists s. split; [done|lia].
  - destruct (Z.ltb_spec (Z.of_nat (length items)) 15); [done|].
    intros _. right. exists items. split; [done|lia].
Qed.

Lemma valid_password_not_mask body :
  PasswordCheck body = Pass → prop body "password" ≠ FStr (lit "******").
Proof.
  intros [(s & -> & Hlen) | (items & -> & _)]%valid_password_shape; [|done].
  intros [= ->]. cbn in Hlen. lia.
Qed.

Lemma valid_role_shape body :
  RoleCheck body = Pass →
  prop body "role" ≠ FMissing ∧ prop body "role" ≠ FNull
  ∧ ∀ b, prop body "role" ≠ FBool b.
Proof.
  unfold RoleCheck, of_bool, isValidRole.
  destruct (prop body "role") as [| |b|n|t|s|items]; try done.
  - replace (parseInt FMissing) with NaN by done.
    cbn [num_ge]. by rewrite andb_false_r.
  - replace (parseInt FNull) with NaN by done.
    cbn [num_ge]. by rewrite andb_false_r.
  - replace (parseInt (FBool b)) with NaN by (by destruct b).
    cbn [num_ge]. by rewrite andb_false_r.
Qed.

(** A number from 1 to 5 is a role when the helper accepts it. *)
Lemma isValidRole_number z :
  1 ≤ z ≤ 5 →
  isValidRole (FNum (Num z)) = Return (isNumberProvided (JNum (Num z))).
Proof.
  intros Hz. unfold isValidRole.
  assert (z = 1 ∨ z = 2 ∨ z = 3 ∨ z = 4 ∨ z = 5) as Hcases by lia.
  replace (parseInt (FNum (Num z))) with (Num z)
    by (by destruct Hcases as [->|[->|[->|[->| ->]]]]).
  cbn [num_ge num_le val_of_field].
  replace (1 <=? z) with true by (symmetry; apply Z.leb_le; lia).
  replace (z <=? 5) with true by (symmetry; apply Z.leb_le; lia).
  by rewrite !andb_true_r.
Qed.

Lemma validate_passed body :
  validate body = Passed →
  EmailCheck body = Pass ∧ RequiredFieldsCheck body = Pass
  ∧ PhoneCheck body = Pass ∧ PasswordCheck body = Pass
  ∧ RoleCheck body = Pass.
Proof.
  unfold validate, validation_stages, run_stages.
  destruct (EmailCheck body); [|done..].
  destruct (RequiredFieldsCheck body); [|done..].
  destruct (PhoneCheck body); [|done..].
  destruct (PasswordCheck body); [|done..].
  destruct (RoleCheck body); done.
Qed.

(** C9. A request that reaches the account insert is logged as a copy of
    its body in which [password] is the string of six asterisks and every
    other field is as submitted.  That copy opens the console, and what
    follows it is nothing, or the fixed error line with one value: the
    error the storage returned for one of the two inserts, the [TypeError]
    of an account insert without a row, or the error [jwt.sign] raises for
    a missing secret.  The submitted password is not the string of
    asterisks, and neither the logged copy nor the values of the account
    insert change with the submitted password. *)
Theorem logged_body_masks_password body d :
  validate body = Passed →
  let w := (register now key body d).2 in
  (console w = [Dir (masked body)]
   ∨ (∃ e,
        console w = Dir (masked body) :: failure_log (FromStorage e)
        ∧ ((∃ d1,
              pool_query insertAccountQuery (account_values body) d
                = (d1, Rejected e))
           ∨ (∃ d1 (row : gmap string jsval) rows d2,
                pool_query insertAccountQuery (account_values body) d
                  = (d1, Resolved (row :: rows))
                ∧ pool_query insertCredentialQuery
                    (credential_values body (row_id row)) d1
                  = (d2, Rejected e))))
   ∨ console w = Dir (masked body) :: failure_log (Raised TypeError)
   ∨ console w =
       Dir (masked body) ::
       failure_log (Raised (Error "secretOrPrivateKey must have a value")))
  ∧ masked body !! "password" = Some (FStr (lit "******"))
  ∧ (∀ k, k ≠ "password" → masked body !! k = body !! k)
  ∧ prop body "password" ≠ FStr (lit "******")
  ∧ (∀ pw, masked (<["password" := pw]> body) = masked body)
  ∧ (∀ pw, account_values (<["password" := pw]> body) = account_values body).
Proof.
  intros Hv. cbn zeta. split_and!.
  - destruct (register_console body d Hv)
      as [Hc | [Hc | [Hc | (_ & Hc)]]]; auto.
  - apply lookup_insert_eq.
  - intros k Hk. by apply lookup_insert_ne.
  - apply validate_passed in Hv as (_ & _ & _ & Hpw & _).
    by apply valid_password_not_mask.
  - intros pw. apply insert_insert_eq.
  - intros pw. unfold account_values, prop.
    by rewrite !lookup_insert_ne by done.
Qed.

(** C10, as amended.  A request that passes validation and whose two
    inserts resolve is answered, when the secret is configured, with status
    201 and the body of a token and an id, and no other request gets a 201.
    The token is signed with the module's secret over the claims [role],
    the value of the role field as submitted, and [id], the [account_id]
    of the row the account insert returned, issued at the current time and
    expiring 14 days later; the id of the body is the same.  The role is
    not parsed: submitted as a string it is signed as that string, and
    submitted as a number from 1 to 5, which passes the role check when
    [isNumberProvided] accepts the number, it is signed as that number. *)
Theorem success_response body d :
  (∀ d1 row rows d2 rows2 k,
     validate body = Passed →
     pool_query insertAccountQuery (account_values body) d
       = (d1, Resolved (row :: rows)) →
     pool_query insertCredentialQuery
       (credential_values body (row_id row)) d1 = (d2, Resolved rows2) →
     secret key = Some k → k ≠ [] →
     reply (register now key body d).2 =
     Some (Response 201
             (Success
                (Signed (Claims (val_of_field (prop body "role"))
                                (row_id row) now
                                (now + 14 * 24 * 60 * 60)) k)
                (row_id row))))
  ∧ (∀ r,
       reply (register now key body d).2 = Some r →
       status r = 201 →
       ∃ k d1 (row : gmap string jsval) rows d2 rows2,
         validate body = Passed
         ∧ secret key = Some k ∧ k ≠ []
         ∧ pool_query insertAccountQuery (account_values body) d
             = (d1, Resolved (row :: rows))
         ∧ pool_query insertCredentialQuery
             (credential_values body (row_id row)) d1 = (d2, Resolved rows2)
         ∧ r = Response 201
                 (Success
                    (Signed (Claims (val_of_field (prop body "role"))
                                    (row_id row) now
                                    (now + 14 * 24 * 60 * 60)) k)
                    (row_id row)))
  ∧ (∀ s, prop body "role" = FStr s →
          val_of_field (prop body "role") = JStr s)
  ∧ (∀ z, 1 ≤ z ≤ 5 →
          isNumberProvided (JNum (Num z)) = true →
          isValidRole (FNum (Num z)) = Return true
          ∧ (prop body "role" = FNum (Num z) →
             val_of_field (prop body "role") = JNum (Num z))).
Proof.
  split_and!.
  - intros d1 row rows d2 rows2 k Hv Hq1 Hq2 Hk Hne.
    rewrite register_validate, Hv.
    rewrite (persist_both_resolved _ _ _ _ _ _ _ Hq1 Hq2), Hk.
    by rewrite jwt_sign_14_days.
  - rewrite register_validate. intros r Hr Hstatus.
    destruct (validate body) as [|c|e] eqn:Hv.
    + destruct (persist_cases body d)
        as [(d1 & e & Hq1) | [(d1 & Hq1)
           | [(d1 & row & rows & d2 & e & Hq1 & Hq2)
           | (d1 & row & rows & d2 & rows2 & Hq1 & Hq2)]]].
      * rewrite (persist_account_rejected _ _ _ _ Hq1) in Hr.
        injection Hr as <-. by destruct (account_failure e).
      * rewrite (persist_no_row _ _ _ Hq1) in Hr. by injection Hr as <-.
      * rewrite (persist_credential_rejected _ _ _ _ _ _ _ Hq1 Hq2) in Hr.
        by injection Hr as <-.
      * rewrite (persist_both_resolved _ _ _ _ _ _ _ Hq1 Hq2) in Hr.
        cbn [snd reply] in Hr. injection Hr as <-.
        destruct (secret key) as [[|u k]|] eqn:Hk.
        -- by rewrite jwt_sign_no_secret in Hstatus by eauto.
        -- rewrite jwt_sign_14_days by done.
           by exists (u :: k), d1, row, rows, d2, rows2.
        -- by rewrite jwt_sign_no_secret in Hstatus by eauto.
    + injection Hr as <-. by destruct c.
    + done.
  - by intros s ->.
  - intros z Hz Hnum. split; [|by intros ->].
    by rewrite isValidRole_number, Hnum.
Qed.

End facts.

(** *** The statements at concrete requests *)

Import Reference ReferenceStore.

(** The reference storage leaves its tables alone when it rejects. *)
Lemma rejected_leaves_tables text values (s s' : tables) err :
  pool_query text values s = (s', Rejected err) → s' = s.
Proof.
  cbn. unfold insert_account, insert_credential.
  repeat case_bool_decide; repeat case_match; congruence.
Qed.

(** A malformed address with a short password: the email rejection. *)
Lemma validation_in_order_witness :
  (EmailCheck bad_email_and_password = Fail
   ∧ PasswordCheck bad_email_and_password = Fail)
  ∧ reply (register 0 a_key bad_email_and_password empty_tables).2
      = Some (rejection InvalidEmail)
  ∧ reply (register 0 a_key bad_email_and_password empty_tables).2
      ≠ Some (rejection InvalidPassword).
Proof.
  split; [split; vm_compute; reflexivity|].
  apply (proj1 (proj2
    (validation_in_order (P := pool) 0 a_key bad_email_and_password
       empty_tables)));
    vm_compute; reflexivity.
Defined.

(** The reply to that request is one of the eight fixed ones. *)
Lemma rejections_carry_fixed_messages_witness :
  (reply (register 0 a_key bad_email_and_password empty_tables).2
     = Some (rejection InvalidEmail)
   ∧ status (rejection InvalidEmail) ≠ 201)
  ∧ (∃ c, rejection InvalidEmail
          = Response (status_of c) (Message (message_of c)))
  ∧ (∀ c c', message_of c = message_of c' → c = c').
Proof.
  assert (reply (register 0 a_key bad_email_and_password empty_tables).2
            = Some (rejection InvalidEmail)) as Hr
    by (vm_compute; reflexivity).
  assert (status (rejection InvalidEmail) ≠ 201) as Hs by (cbn; lia).
  split; [exact (conj Hr Hs)|].
  exact (rejections_carry_fixed_messages (P := pool) 0 a_key
           bad_email_and_password empty_tables (rejection InvalidEmail)
           Hr Hs).
Defined.

(** The text sent for a malformed address is not a reason code. *)
Lemma invalid_email_reply_has_no_reason_code :
  ∃ r, reply (register 0 a_key bad_email_and_password empty_tables).2 = Some r
       ∧ status r = 400
       ∧ ¬ carries_reason_code r.
Proof.
  exists (rejection InvalidEmail). split; [vm_compute; reflexivity|].
  split; [done|]. by intros [[] [=]].
Qed.

(** [alice] registers a second time: her username is taken. *)
Lemma account_insert_failure_witness :
  (validate alice = Passed
   ∧ pool_query insertAccountQuery (account_values alice) with_alice
       = (with_alice, Rejected username_taken))
  ∧ (constraint username_taken = JStr (lit "account_username_key") →
     reply (register 0 a_key alice with_alice).2
       = Some (rejection UsernameTaken)).
Proof.
  assert (validate alice = Passed) as Hv by (vm_compute; reflexivity).
  assert (pool_query insertAccountQuery (account_values alice) with_alice
            = (with_alice, Rejected username_taken)) as Hq
    by (vm_compute; reflexivity).
  split; [exact (conj Hv Hq)|].
  exact (proj1 (account_insert_failure (P := pool) 0 a_key alice with_alice
                  with_alice username_taken Hv Hq)).
Defined.

(** The credential insert fails for [alice]: her account row stays, with no
    credential. *)
Lemma credential_failure_keeps_account_witness :
  (validate alice = Passed
   ∧ pool_query insertAccountQuery (account_values alice) failing_credentials
       = (alice_orphaned, Resolved [alice_id_row])
   ∧ pool_query insertCredentialQuery alice_credential alice_orphaned
       = (alice_orphaned, Rejected outage))
  ∧ reply (register 0 a_key alice failing_credentials).2
      = Some (rejection InternalError)
  ∧ accounts (store (register 0 a_key alice failing_credentials).2)
      = [alice_row]
  ∧ credentials (store (register 0 a_key alice failing_credentials).2) = [].
Proof.
  assert (validate alice = Passed) as Hv by (vm_compute; reflexivity).
  assert (pool_query insertAccountQuery (account_values alice)
            failing_credentials
          = (alice_orphaned, Resolved [alice_id_row])) as Hq1
    by (vm_compute; reflexivity).
  assert (pool_query insertCredentialQuery alice_credential alice_orphaned
          = (alice_orphaned, Rejected outage)) as Hq2
    by (vm_compute; reflexivity).
  split; [exact (conj Hv (conj Hq1 Hq2))|].
  destruct (credential_failure_keeps_account (P := pool) 0 a_key alice
              failing_credentials alice_orphaned alice_id_row []
              alice_orphaned outage Hv Hq1 Hq2)
    as (Hreply & _ & Hstore & _).
  split; [exact Hreply|]. rewrite Hstore. split; reflexivity.
Defined.


(** [alice] registers in a process whose key holds no secret. *)
Lemma unconfigured_secret_fails_after_storing_witness :
  ((secret (load_key ∅) = None ∨ secret (load_key ∅) = Some [])
   ∧ validate alice = Passed
   ∧ pool_query insertAccountQuery (account_values alice) empty_tables
       = (with_alice, Resolved [alice_id_row])
   ∧ pool_query insertCredentialQuery alice_credential with_alice
       = (alice_registered, Resolved []))
  ∧ reply (register 0 (load_key ∅) alice empty_tables).2
      = Some (rejection InternalError)
  ∧ store (register 0 (load_key ∅) alice empty_tables).2 = alice_registered.
Proof.
  assert (secret (load_key ∅) = None ∨ secret (load_key ∅) = Some [])
    as Hk by (left; reflexivity).
  assert (validate alice = Passed) as Hv by (vm_compute; reflexivity).
  assert (pool_query insertAccountQuery (account_values alice) empty_tables
          = (with_alice, Resolved [alice_id_row])) as Hq1
    by (vm_compute; reflexivity).
  assert (pool_query insertCredentialQuery alice_credential with_alice
          = (alice_registered, Resolved [])) as Hq2
    by (vm_compute; reflexivity).
  split; [exact (conj Hk (conj Hv (conj Hq1 Hq2)))|].
  rewrite (unconfigured_secret_fails_after_storing (P := pool) 0
             (load_key ∅) alice empty_tables with_alice alice_id_row []
             alice_registered [] Hk Hv Hq1 Hq2).
  split; reflexivity.
Defined.

(** What is logged when [alice] registers. *)
Lemma logged_body_masks_password_witness :
  validate alice = Passed
  ∧ masked alice !! "password" = Some (FStr (lit "******"))
  ∧ prop alice "password" ≠ FStr (lit "******")
  ∧ masked (<["password" := FStr (lit "another!pass_992")]> alice)
      = masked alice.
Proof.
  assert (validate alice = Passed) as Hv by (vm_compute; reflexivity).
  split; [exact Hv|].
  destruct (logged_body_masks_password (P := pool) 0 a_key alice
              empty_tables Hv) as (_ & Hmask & _ & Hpw & Hsame & _).
  exact (conj Hmask (conj Hpw (Hsame _))).
Defined.

(** The 201 response [alice] receives. *)
Lemma success_response_witness :
  (validate alice = Passed
   ∧ pool_query insertAccountQuery (account_values alice) empty_tables
       = (with_alice, Resolved [alice_id_row])
   ∧ pool_query insertCredentialQuery alice_credential with_alice
       = (alice_registered, Resolved [])
   ∧ secret a_key = Some (lit "s3cret") ∧ lit "s3cret" ≠ [])
  ∧ reply (register 0 a_key alice empty_tables).2
      = Some (Response 201 (Success alice_token (JNum (Num 1)))).
Proof.
  assert (validate alice = Passed) as Hv by (vm_compute; reflexivity).
  assert (pool_query insertAccountQuery (account_values alice) empty_tables
          = (with_alice, Resolved [alice_id_row])) as Hq1
    by (vm_compute; reflexivity).
  assert (pool_query insertCredentialQuery alice_credential with_alice
          = (alice_registered, Resolved [])) as Hq2
    by (vm_compute; reflexivity).
  assert (secret a_key = Some (lit "s3cret")) as Hk by reflexivity.
  assert (lit "s3cret" ≠ []) as Hne by discriminate.
  split; [exact (conj Hv (conj Hq1 (conj Hq2 (conj Hk Hne))))|].
  exact (proj1 (success_response (P := pool) 0 a_key alice empty_tables)
           with_alice alice_id_row [] alice_registered [] (lit "s3cret")
           Hv Hq1 Hq2 Hk Hne).
Defined.

(** A role submitted as the number 3 passes the role check and is signed
    as the number 3, not as a string. *)
Lemma numeric_role_is_signed_as_number :
  prop numeric_role "role" = FNum (Num 3)
  ∧ reply (register 0 a_key numeric_role empty_tables).2
      = Some (Response 201
                (Success
                   (Signed (Claims (JNum (Num 3)) (JNum (Num 1)) 0
                                   (14 * 24 * 60 * 60))
                           (lit "s3cret"))
                   (JNum (Num 1))))
  ∧ ∀ s, JNum (Num 3) ≠ JStr s.
Proof.
  split; [vm_compute; reflexivity|]. split; [vm_compute; reflexivity|done].
Qed.

End RouteFacts.

(** ** The validators and the route on sample inputs *)

Module Examples.
Import Js Validators Route Stages Rules Reference ReferenceStore.

Example password_accepted :
  isValidPassword (FStr (lit "wonder!land_992")) = Return true.
Proof. reflexivity. Qed.

(** Digits that add up to 15, not 20. *)
Example password_wrong_sum :
  isValidPassword (FStr (lit "password12345!!")) = Return false.
Proof. reflexivity. Qed.

(** Fourteen code units. *)
Example password_too_short :
  isValidPassword (FStr (lit "wonder!and_992")) = Return false.
Proof. reflexivity. Qed.

Example password_without_special :
  isValidPassword (FStr (lit "wonderXland0992")) = Return false.
Proof. reflexivity. Qed.

Example phone_accepted : isValidPhone (FStr (lit "1234567890")) = Return true.
Proof. reflexivity. Qed.

Example phone_missing : isValidPhone FMissing = Return false.
Proof. reflexivity. Qed.

Example role_accepted : isValidRole (FStr (lit "5")) = Return true.
Proof. reflexivity. Qed.

Example role_out_of_range : isValidRole (FStr (lit "6")) = Return false.
Proof. reflexivity. Qed.

Example role_not_a_number : isValidRole (FStr (lit "3abc")) = Return false.
Proof. reflexivity. Qed.

Example role_missing : isValidRole FMissing = Return false.
Proof. reflexivity. Qed.

Example email_accepted :
  isValidEmail (FStr (lit "Alice@Example.com"))
  = Return (Some (lit "alice@example.com")).
Proof. reflexivity. Qed.

Example email_ip_literal :
  isValidEmail (FStr (lit "a.b-c@[1.22.333.4]"))
  = Return (Some (lit "a.b-c@[1.22.333.4]")).
Proof. reflexivity. Qed.

Example email_without_dot : isValidEmail (FStr (lit "a@b")) = Return None.
Proof. reflexivity. Qed.

Example email_double_dot :
  isValidEmail (FStr (lit "a..b@c.de")) = Return None.
Proof. reflexivity. Qed.

Example parseInt_hex : parseInt_string (lit "  -0x1f rest") = Num (-31).
Proof. reflexivity. Qed.

Example timespan_14_days : timespan "14 days" = Some (14 * 24 * 60 * 60).
Proof. reflexivity. Qed.

(** The special characters, as code units. *)
Example special_chars_codes :
  special_chars
  = [33; 64; 35; 36; 37; 94; 38; 42; 40; 41; 95; 43; 45; 61; 91; 93; 123;
     125; 59; 39; 58; 34; 92; 124; 44; 46; 60; 62; 47; 63]%N.
Proof. reflexivity. Qed.

(** A surrogate pair is one item of the iteration. *)
Example code_points_pair :
  code_points [97; 55357; 56832; 98]%N = [[97]; [55357; 56832]; [98]]%N.
Proof. reflexivity. Qed.

Example alice_registers :
  reply (register 0 a_key alice empty_tables).2
  = Some (Response 201 (Success alice_token (JNum (Num 1))))
  ∧ store (register 0 a_key alice empty_tables).2 = alice_registered.
Proof. split; vm_compute; reflexivity. Qed.

(** The request [no_email] has no address and a short password: the first
    handler raises, and the route sends nothing. *)
Example no_email_raises :
  PasswordCheck no_email = Fail
  ∧ register 0 a_key no_email empty_tables
    = (Throw TypeError, start a_key empty_tables).
Proof. split; vm_compute; reflexivity. Qed.

(** Fields that are not strings. *)
Example to_string_array :
  to_string (FArr [ FNum (Num 1); FNull; FStr (lit "a");
                    FArr [FBool true; FNum (Num (-2))] ])
  = lit "1,,a,true,-2".
Proof. reflexivity. Qed.

Example role_number : isValidRole (FNum (Num 3)) = Return true.
Proof. reflexivity. Qed.

Example role_array : isValidRole (FArr [FStr (lit "4")]) = Return true.
Proof. reflexivity. Qed.

Example role_boolean : isValidRole (FBool true) = Return false.
Proof. reflexivity. Qed.

Example password_number_raises :
  isValidPassword (FNum (Num 5)) = Throw TypeError.
Proof. reflexivity. Qed.

(** An array is iterated item by item. *)
Example password_array :
  isValidPassword
    (FArr (FStr (lit "9") :: FNum (Num 9) :: FStr (lit "2") :: FStr (lit "!")
           :: replicate 11 (FStr (lit "a"))))
  = Return true.
Proof. reflexivity. Qed.

Example phone_number : isValidPhone (FNum (Num 2065550100)) = Return false.
Proof. reflexivity. Qed.

Example email_number_raises : isValidEmail (FNum (Num 1)) = Throw TypeError.
Proof. reflexivity. Qed.

Example numeric_role_registers :
  validate numeric_role = Passed
  ∧ reply (register 0 a_key numeric_role empty_tables).2
    = Some (Response 201
              (Success
                 (Signed (Claims (JNum (Num 3)) (JNum (Num 1)) 0
                                 (14 * 24 * 60 * 60))
                         (lit "s3cret"))
                 (JNum (Num 1)))).
Proof. split; vm_compute; reflexivity. Qed.

Example second_alice_is_refused :
  reply (register 0 a_key alice with_alice).2
  = Some (Response 400 (Message "Username exists")).
Proof. vm_compute. reflexivity. Qed.

End Examples.

(** ** Further properties of the password rule *)

Module PasswordFacts.
Import Js Validators Rules Shapes PasswordRule.

Lemma existsb_perm {A} (f : A → bool) (l l' : list A) :
  l ≡ₚ l' → existsb f l = existsb f l'.
Proof.
  induction 1 as [|x l l' _ IH|x y l|l l' l'' _ IH1 _ IH2]; cbn.
  - done.
  - by rewrite IH.
  - by rewrite !orb_assoc, (orb_comm (f y)).
  - by rewrite IH1.
Qed.

Lemma digit_sum_perm p q : p ≡ₚ q → digit_sum p = digit_sum q.
Proof.
  induction 1 as [|x l l' _ IH|x y l|l l' l'' _ IH1 _ IH2]; cbn; lia.
Qed.

Lemma digit_sum_app p q : digit_sum (p ++ q) = digit_sum p + digit_sum q.
Proof. induction p as [|c p IH]; cbn; lia. Qed.

Lemma digit_term_bounds c :
  0 ≤ (if is_digit c then Z.of_N c - 48 else 0) ≤ 9.
Proof.
  destruct (is_digit c) eqn:Hd; [|lia].
  unfold is_digit, in_range in Hd. unbool. lia.
Qed.

Lemma digit_sum_bounds p : 0 ≤ digit_sum p ≤ 9 * Z.of_nat (digit_count p).
Proof.
  induction p as [|c p IH]; cbn [digit_sum digit_count]; [lia|].
  pose proof (digit_term_bounds c). destruct (is_digit c); lia.
Qed.

Lemma digit_sum_zero q :
  digit_sum q = 0 ↔ Forall (λ c, is_digit c = true → c = 48%N) q.
Proof.
  induction q as [|c q IH]; cbn [digit_sum].
  - split; [constructor | done].
  - pose proof (digit_term_bounds c) as Hc.
    pose proof (digit_sum_bounds q) as Hq.
    rewrite Forall_cons, <- IH. destruct (is_digit c) eqn:Hd.
    + split.
      * intros Hsum. split; [intros _; lia | lia].
      * intros [Hz Hsum]. specialize (Hz eq_refl). subst c. cbn. lia.
    + split; [intros Hsum; split; [done | lia] | intros [_ Hsum]; lia].
Qed.

Section facts.
Context `{VF : ValidationFunctions}.
Hypothesis digits_are_numbers :
  ∀ d, 0 ≤ d ≤ 9 → isNumberProvided (JNum (Num d)) = true.

(** The answer of [isValidPassword] does not depend on the order of the
    characters. *)
Theorem isValidPassword_permutation p q :
  p ≡ₚ q → isValidPassword (FStr p) = isValidPassword (FStr q).
Proof using digits_are_numbers.
  intros Hpq. rewrite !isValidPassword_closed_form by done.
  rewrite (Permutation_length Hpq), (digit_sum_perm p q Hpq).
  by rewrite (existsb_perm is_digit p q), (existsb_perm (one_of _) p q).
Qed.

(** An accepted password has at least three digit characters. *)
Theorem valid_password_has_three_digits p :
  isValidPassword (FStr p) = Return true → (3 ≤ digit_count p)%nat.
Proof using digits_are_numbers.
  rewrite isValidPassword_closed_form by done. intros [= Hb]. unbool.
  pose proof (digit_sum_bounds p). lia.
Qed.

(** After an accepted password, more characters keep it accepted exactly
    when every digit among them is [0]. *)
Theorem valid_password_extended p q :
  isValidPassword (FStr p) = Return true →
  (isValidPassword (FStr (p ++ q)) = Return true
   ↔ Forall (λ c, is_digit c = true → c = 48%N) q).
Proof using digits_are_numbers.
  rewrite !isValidPassword_closed_form by done. intros [= Hb]. unbool.
  rewrite <- digit_sum_zero, digit_sum_app, length_app, !existsb_app.
  repeat match goal with H : existsb _ _ = true |- _ => rewrite H end.
  cbn [orb andb].
  destruct (Z.ltb_spec (Z.of_nat (length p + length q)) 15); [lia|].
  cbn [negb andb]. split.
  - intros [= Hs]. unbool. lia.
  - intros Hs. f_equal. apply Z.eqb_eq. lia.
Qed.

Lemma digit_sum_no_digit p : existsb is_digit p = false → digit_sum p = 0.
Proof.
  induction p as [|c p IH]; cbn [existsb digit_sum]; [done|].
  intros [Hc Hp]%orb_false_iff. rewrite Hc, IH by done. done.
Qed.

(** The test for a digit adds nothing to the test of the sum: a string of
    at least 15 code units with a special character and digits that add up
    to 20 is accepted. *)
Theorem digit_test_is_implied p :
  (15 ≤ length p)%nat →
  (∃ c, c ∈ p ∧ c ∈ special_chars) →
  digit_sum p = 20 →
  isValidPassword (FStr p) = Return true.
Proof using digits_are_numbers.
  intros Hlen (c & Hc & Hs) Hsum.
  rewrite isValidPassword_closed_form by done. f_equal.
  destruct (existsb is_digit p) eqn:Hd.
  - apply andb_true_iff. split; [apply negb_true_iff, Z.ltb_ge; lia|].
    cbn [andb]. apply andb_true_iff. split; [|by apply Z.eqb_eq].
    apply existsb_elem. exists c. split; [done|]. by apply bool_decide_eq_true.
  - apply digit_sum_no_digit in Hd. lia.
Qed.

End facts.

Section any_helper.
Context `{VF : ValidationFunctions}.

Lemma within_unit st c a :
  sum st = Num a → within st (scan_char st [c]) [c].
Proof.
  intros Ha. unfold scan_char. rewrite parseInt_unit, matches_special_unit.
  pose proof (digit_term_bounds c) as Hc. unfold within. cbn [digit_sum existsb].
  destruct (is_digit c) eqn:Hd; cbn [isNaN negb].
  - destruct (isNumberProvided _); cbn [andb].
    + exists a, (Z.of_N c - 48 + a). rewrite Ha. cbn. split_and!; auto; lia.
    + rewrite (digit_not_special c Hd).
      exists a, a. split_and!; auto; lia.
  - rewrite andb_false_r. destruct (one_of special_chars c).
    + exists a, a. cbn. split_and!; auto; lia.
    + exists a, a. split_and!; auto; lia.
Qed.

Lemma within_trans st1 st2 st3 s1 s2 :
  within st1 st2 s1 → within st2 st3 s2 → within st1 st3 (s1 ++ s2).
Proof.
  intros (a1 & a2 & H1 & H2 & Hb & Hn & Hs)
         (a2' & a3 & H2' & H3 & Hb' & Hn' & Hs').
  rewrite H2 in H2'. injection H2' as <-.
  exists a1, a3. rewrite digit_sum_app, !existsb_app.
  split_and!; [done | done | lia | lia | |].
  - intros H. destruct (Hn' H) as [H'| ->]; [|by rewrite orb_true_r; auto].
    destruct (Hn H') as [?| ->]; auto.
  - intros H. destruct (Hs' H) as [H'| ->]; [|by rewrite orb_true_r; auto].
    destruct (Hs H') as [?| ->]; auto.
Qed.

Lemma within_scan s st a :
  sum st = Num a → within st (foldl scan_char st (code_points s)) s.
Proof.
  revert st a. induction s as [|c|hi lo l IHl IHlo] using list_pair_ind;
    intros st a Ha.
  - exists a, a. cbn. split_and!; auto; lia.
  - cbn. by eapply within_unit.
  - cbn [code_points].
    destruct (is_lead hi && is_trail lo) eqn:Hpair.
    + apply andb_true_iff in Hpair as [Hhi Hlo].
      cbn [foldl]. rewrite scan_char_pair by done.
      destruct (IHl st a Ha) as (b & b' & Hb & Hb' & Hr & Hn & Hs).
      pose proof (digit_term_bounds hi). pose proof (digit_term_bounds lo).
      exists b, b'. cbn [digit_sum existsb].
      split_and!; [done | done | lia | lia | |].
      * intros H'. destruct (Hn H') as [?| ->]; auto.
        right. by rewrite !orb_true_r.
      * intros H'. destruct (Hs H') as [?| ->]; auto.
        right. by rewrite !orb_true_r.
    + cbn [foldl].
      destruct (within_unit st hi a Ha) as (b & b' & Hb & Hb' & Hrest).
      apply (within_trans st (scan_char st [hi]) _ [hi] (lo :: l)).
      * by eapply within_unit.
      * by eapply IHlo.
Qed.

(** Whatever [isNumberProvided] answers, an accepted password has at least
    15 code units, a special character, a digit, and digits that add up to
    at least 20. *)
Theorem valid_password_necessary p :
  isValidPassword (FStr p) = Return true →
  (15 ≤ length p)%nat
  ∧ (∃ c, c ∈ p ∧ c ∈ special_chars)
  ∧ (∃ c, c ∈ p ∧ is_digit c = true)
  ∧ 20 ≤ digit_sum p.
Proof.
  unfold isValidPassword, scan_password.
  destruct (Z.ltb_spec (Z.of_nat (length p)) 15); [done|].
  intros [= Hb]. unbool.
  destruct (within_scan p (Scan (Num 0) false false) 0 eq_refl)
    as (a & a' & Ha & Ha' & Hr & Hn & Hs).
  cbn [sum isNum hasSpecialChar] in *. injection Ha as <-.
  split; [lia|]. split; [|split].
  - destruct Hs as [?|Hs]; [done..|].
    apply existsb_elem in Hs as (c & Hc & Hin). exists c. split; [done|].
    by apply bool_decide_eq_true in Hin.
  - destruct Hn as [?|Hn]; [done..|]. by apply existsb_elem.
  - match goal with H : num_is _ _ = true |- _ => rewrite Ha' in H; cbn in H end.
    unbool. lia.
Qed.

End any_helper.

Import Reference.

(** Two orders of the same characters. *)
Lemma isValidPassword_permutation_witness :
  (∀ d, 0 ≤ d ≤ 9 → isNumberProvided (JNum (Num d)) = true)
  ∧ lit "wonder!land_992" ≡ₚ lit "ownder!land_992"
  ∧ isValidPassword (FStr (lit "wonder!land_992"))
    = isValidPassword (FStr (lit "ownder!land_992")).
Proof.
  assert (lit "wonder!land_992" ≡ₚ lit "ownder!land_992") as Hp
    by apply perm_swap.
  split; [done|]. split; [exact Hp|].
  exact (isValidPassword_permutation (VF := validationFunctions)
           (λ _ _, eq_refl) _ _ Hp).
Defined.

Lemma valid_password_has_three_digits_witness :
  isValidPassword (FStr (lit "wonder!land_992")) = Return true
  ∧ (3 ≤ digit_count (lit "wonder!land_992"))%nat.
Proof.
  assert (isValidPassword (FStr (lit "wonder!land_992")) = Return true)
    as Hv by reflexivity.
  split; [exact Hv|].
  exact (valid_password_has_three_digits (VF := validationFunctions)
           (λ _ _, eq_refl) _ Hv).
Defined.

Lemma valid_password_extended_witness :
  isValidPassword (FStr (lit "wonder!land_992")) = Return true
  ∧ (isValidPassword (FStr (lit "wonder!land_992" ++ lit "00x")) = Return true
     ↔ Forall (λ c, is_digit c = true → c = 48%N) (lit "00x")).
Proof.
  assert (isValidPassword (FStr (lit "wonder!land_992")) = Return true)
    as Hv by reflexivity.
  split; [exact Hv|].
  exact (valid_password_extended (VF := validationFunctions)
           (λ _ _, eq_refl) _ (lit "00x") Hv).
Defined.

Lemma digit_test_is_implied_witness :
  ((15 ≤ length (lit "wonder!land_992"))%nat
   ∧ (∃ c, c ∈ lit "wonder!land_992" ∧ c ∈ special_chars)
   ∧ digit_sum (lit "wonder!land_992") = 20)
  ∧ isValidPassword (FStr (lit "wonder!land_992")) = Return true.
Proof.
  assert ((15 ≤ length (lit "wonder!land_992"))%nat) as Hlen by (cbn; lia).
  assert (∃ c, c ∈ lit "wonder!land_992" ∧ c ∈ special_chars) as Hs.
  { exists 33%N. split; apply list_elem_of_In; cbn; tauto. }
  assert (digit_sum (lit "wonder!land_992") = 20) as Hsum by reflexivity.
  split; [exact (conj Hlen (conj Hs Hsum))|].
  exact (digit_test_is_implied (VF := validationFunctions)
           (λ _ _, eq_refl) _ Hlen Hs Hsum).
Defined.

Lemma valid_password_necessary_witness :
  isValidPassword (FStr (lit "wonder!land_992")) = Return true
  ∧ 20 ≤ digit_sum (lit "wonder!land_992").
Proof.
  assert (isValidPassword (FStr (lit "wonder!land_992")) = Return true)
    as Hv by reflexivity.
  split; [exact Hv|].
  exact (proj2 (proj2 (proj2
    (valid_password_necessary (VF := validationFunctions) _ Hv)))).
Defined.

End PasswordFacts.

(** ** Further properties of the role rule *)

Module RoleFacts.
Import Js Validators Rules PasswordRule.

Lemma trim_start_white ws s :
  Forall (λ c, is_white_space c = true) ws →
  trim_start (ws ++ s) = trim_start s.
Proof. induction 1 as [|c ws Hc _ IH]; [done|]. cbn. by rewrite Hc. Qed.

Lemma digit_value_nonneg radix c d : digit_value radix c = Some d → 0 ≤ d.
Proof.
  unfold digit_value, in_range.
  repeat match goal with
  | |- context [if ?b then _ else _] => split_bool b; cbn [andb]
  end; intros [= <-]; lia.
Qed.

Lemma digits_prefix_nonneg radix s : Forall (λ d, 0 ≤ d) (digits_prefix radix s).
Proof.
  induction s as [|c s IH]; cbn; [constructor|].
  destruct (digit_value radix c) as [d|] eqn:Hd; constructor; [|done].
  by eapply digit_value_nonneg.
Qed.

Lemma digits_value_nonneg radix ds :
  0 ≤ radix → Forall (λ d, 0 ≤ d) ds → 0 ≤ digits_value radix ds.
Proof.
  intros Hr Hds. unfold digits_value.
  assert (∀ acc, 0 ≤ acc → 0 ≤ foldl (λ acc d, acc * radix + d) acc ds) as H.
  { induction Hds as [|d ds Hd _ IH]; intros acc Hacc; cbn; [done|].
    apply IH. nia. }
  by apply H.
Qed.

Lemma strip_prefix_radix s : (strip_prefix s).1 = 10 ∨ (strip_prefix s).1 = 16.
Proof.
  destruct s as [|a [|b r]]; cbn; auto.
  destruct (_ && _); cbn; auto.
Qed.

(** After a minus sign [parseInt] reads nothing, or a number that is not
    positive. *)
Lemma parseInt_minus ws r :
  Forall (λ c, is_white_space c = true) ws →
  num_ge (parseInt_string (ws ++ 45%N :: r)) 1 = false.
Proof.
  intros Hws. unfold parseInt_string. rewrite trim_start_white by done.
  cbn [trim_start]. replace (is_white_space 45) with false by done.
  cbn [strip_sign]. replace (45 =? 45)%N with true by done.
  pose proof (strip_prefix_radix r) as Hradix.
  destruct (strip_prefix r) as [radix s3]. cbn [fst] in Hradix.
  pose proof (digits_prefix_nonneg radix s3) as Hds.
  destruct (digits_prefix radix s3) as [|d ds] eqn:Hp; [done|].
  cbn [num_ge]. apply Z.leb_gt.
  assert (0 ≤ digits_value radix (d :: ds))
    by (apply digits_value_nonneg; [lia | done]).
  lia.
Qed.

Lemma parseInt_white ws :
  Forall (λ c, is_white_space c = true) ws → parseInt_string ws = NaN.
Proof.
  intros Hws. unfold parseInt_string.
  rewrite <- (app_nil_r ws), trim_start_white by done. done.
Qed.

Section facts.
Context `{VF : ValidationFunctions}.

(** Whatever [isNumberProvided] answers, [isValidRole] returns [false] for
    a missing or [null] role, for a role that is empty or white space only,
    and for a role whose first character after leading white space is a
    minus sign. *)
Theorem isValidRole_rejects :
  isValidRole FMissing = Return false
  ∧ isValidRole FNull = Return false
  ∧ (∀ ws, Forall (λ c, is_white_space c = true) ws →
       isValidRole (FStr ws) = Return false
       ∧ ∀ r, isValidRole (FStr (ws ++ 45%N :: r)) = Return false).
Proof.
  unfold isValidRole. split_and!.
  - replace (parseInt FMissing) with NaN by done.
    cbn [num_ge]. by rewrite andb_false_r.
  - replace (parseInt FNull) with NaN by done.
    cbn [num_ge]. by rewrite andb_false_r.
  - intros ws Hws. split.
    + unfold parseInt, to_string. rewrite parseInt_white by done.
      cbn [num_ge]. by rewrite andb_false_r.
    + intros r. unfold parseInt, to_string. rewrite parseInt_minus by done.
      by rewrite andb_false_r.
Qed.

End facts.

Import Reference.

(** A negative numeral after two spaces. *)
Lemma isValidRole_rejects_witness :
  Forall (λ c, is_white_space c = true) (lit "  ")
  ∧ isValidRole (FStr (lit "  ")) = Return false
  ∧ isValidRole (FStr (lit "  " ++ 45%N :: lit "3")) = Return false.
Proof.
  assert (Forall (λ c, is_white_space c = true) (lit "  ")) as Hws
    by (repeat constructor).
  split; [exact Hws|].
  destruct (proj2 (proj2 (isValidRole_rejects (VF := validationFunctions)))
              _ Hws) as [Hw Hm].
  exact (conj Hw (Hm (lit "3"))).
Defined.

End RoleFacts.

(** ** The shape of an accepted address *)

Module EmailFacts.
Import Js Validators Rules Shapes PasswordRule RegexFacts.

Lemma classes_within_lang P r s :
  classes_within P r → in_lang r s → Forall (λ c, P c = true) s.
Proof.
  intros Hr H. induction H as [|p c Hp|r1 r2 s1 s2 H1 IH1 H2 IH2|r1 r2 s H IH
                              |r1 r2 s H IH|r|r s1 s2 H1 IH1 H2 IH2]; cbn in Hr.
  - constructor.
  - repeat constructor. by apply Hr.
  - destruct Hr. apply Forall_app. auto.
  - destruct Hr. auto.
  - destruct Hr. auto.
  - constructor.
  - apply Forall_app. auto.
Qed.

Lemma not_nullable_nonempty r s : nullable r = false → in_lang r s → s ≠ [].
Proof.
  intros Hn H ->. apply nullable_spec in H. congruence.
Qed.

Lemma in_class_inv p s : in_lang (Class p) s → ∃ c, s = [c] ∧ p c = true.
Proof. inversion 1; subst; eauto. Qed.

Lemma in_chr_inv k s : in_lang (chr k) s → s = [k].
Proof.
  intros (c & -> & Hc)%in_class_inv. by apply N.eqb_eq in Hc as ->.
Qed.

(** When every word of [r] ends with [c], so does every non-empty word of
    [r*]. *)
Lemma star_ends_with r c s :
  (∀ w, in_lang r w → ∃ w', w = w' ++ [c]) →
  in_lang (Star r) s → s = [] ∨ ∃ s', s = s' ++ [c].
Proof.
  intros Hr. remember (Star r) as r' eqn:Heq. intros H. revert Heq.
  induction H as [| | | | | |r0 s1 s2 H1 _ H2 IH2]; try done; [by left|].
  intros [= ->]. right. destruct (IH2 eq_refl) as [-> | (s' & ->)].
  - rewrite app_nil_r. by apply Hr.
  - exists (s1 ++ s'). by rewrite app_assoc.
Qed.

(** The classes of a pattern, laid out. *)
Ltac open_classes :=
  unfold ip_literal, domain_name, octet, between, at_least, plus, digit_char,
    label_char, chr;
  cbn [classes_within times at_most].

(** One class lies within a set of characters given as a disjunction. *)
Ltac class_within :=
  let c := fresh "c" in let Hc := fresh "Hc" in
  intros c Hc; cbv beta in Hc;
  first
    [ apply N.eqb_eq in Hc as <-; reflexivity
    | unfold domain_char, quad_char, letter in *;
      repeat match goal with
      | H : _ || _ = true |- _ => apply orb_true_iff in H as [H|H]
      end;
      rewrite Hc, ?orb_true_r; reflexivity ].

Lemma domain_classes : classes_within domain_char (Alt ip_literal domain_name).
Proof. open_classes. split_and!; try done; class_within. Qed.

Lemma domain_char_plain c :
  domain_char c = true → c ≠ 64%N ∧ is_white_space c = false.
Proof.
  unfold domain_char, letter, is_white_space, in_range. intros Hc.
  split; [intros ->; done|].
  repeat (apply orb_true_iff in Hc as [Hc|Hc]); unbool; cmp_cases.
Qed.

(** A word of the bracketed form: [[], digits and dots, []]. *)
Lemma ip_literal_shape d :
  in_lang ip_literal d →
  ∃ quad, d = 91%N :: quad ++ [93%N] ∧ Forall (λ c, quad_char c = true) quad.
Proof.
  assert (∀ r1 r2 w,
    classes_within quad_char r1 →
    (∀ w2, in_lang r2 w2 →
       ∃ q, w2 = q ++ [93%N] ∧ Forall (λ c, quad_char c = true) q) →
    in_lang (Seq r1 r2) w →
    ∃ q, w = q ++ [93%N] ∧ Forall (λ c, quad_char c = true) q) as Hstep.
  { intros r1 r2 w Hr1 Hr2 (w1 & w2 & -> & H1 & H2)%in_seq_inv.
    destruct (Hr2 _ H2) as (q & -> & Hq).
    exists (w1 ++ q). rewrite app_assoc. split; [done|].
    apply Forall_app. split; [|done]. by eapply classes_within_lang. }
  assert (classes_within quad_char octet) as Hoctet
    by (open_classes; split_and!; try done; class_within).
  assert (classes_within quad_char (chr 46)) as Hdot
    by (open_classes; class_within).
  unfold ip_literal. intros (w1 & w2 & -> & H1 & H2)%in_seq_inv.
  apply in_chr_inv in H1 as ->.
  enough (∃ q, w2 = q ++ [93%N] ∧ Forall (λ c, quad_char c = true) q)
    as (q & -> & Hq) by eauto.
  revert H2. repeat (apply Hstep; [done|]; intros ?).
  intros ->%in_chr_inv. exists []. by split.
Qed.

(** A word of the named form: labels, a dot, and at least two letters. *)
Lemma domain_name_shape d :
  in_lang domain_name d →
  ∃ labels tld,
    d = labels ++ 46%N :: tld ∧ (2 ≤ length tld)%nat
    ∧ Forall (λ c, letter c = true) tld.
Proof.
  unfold domain_name, at_least, plus.
  intros (x & t & -> & Hx & Ht)%in_seq_inv.
  assert (∀ w, in_lang (Seq (Seq label_char (Star label_char)) (chr 46)) w →
               ∃ w', w = w' ++ [46%N]) as Hlabel.
  { intros w (w1 & w2 & -> & _ & ->%in_chr_inv)%in_seq_inv. eauto. }
  assert (∃ labels, x = labels ++ [46%N]) as (labels & ->).
  { apply in_seq_inv in Hx as (y & ys & -> & Hy & Hys).
    destruct (Hlabel y Hy) as (y' & ->).
    destruct (star_ends_with _ 46%N ys Hlabel Hys) as [-> | (ys' & ->)].
    - rewrite app_nil_r. eauto.
    - exists ((y' ++ [46%N]) ++ ys'). by rewrite app_assoc. }
  exists labels, t. rewrite <- app_assoc. split; [done|].
  split.
  - apply in_seq_inv in Ht as (t2 & st & -> & Ht2 & _). cbn in Ht2.
    apply in_seq_inv in Ht2 as (a & t1 & -> & (ca & -> & _)%in_class_inv & Ht1).
    apply in_seq_inv in Ht1 as (b & e & -> & (cb & -> & _)%in_class_inv & _).
    cbn. lia.
  - eapply (classes_within_lang letter); [|exact Ht].
    cbn [classes_within times]. split_and!; done.
Qed.

Section facts.
Context `{VF : ValidationFunctions, B : Builtins}.

Lemma isValidEmail_match s m :
  isValidEmail (FStr s) = Return (Some m) →
  m = toLowerCase s
  ∧ ∃ local domain,
      m = local ++ 64%N :: domain
      ∧ in_lang (Alt dotted_atoms quoted_local) local
      ∧ in_lang (Alt ip_literal domain_name) domain.
Proof.
  unfold isValidEmail, string_match.
  destruct (matches email_pattern (toLowerCase s)) eqn:Hm; [|done].
  intros [= <-]. split; [done|].
  apply matches_spec in Hm. unfold email_pattern in Hm.
  apply in_seq_inv in Hm as (l & rest & -> & Hl & Hrest).
  apply in_seq_inv in Hrest as (at_sign & d & -> & ->%in_chr_inv & Hd).
  eauto.
Qed.

(** An accepted address is the lower-cased input and reads
    [local @ domain] with a non-empty local part and a non-empty domain made
    of letters, digits, [-], [.] and brackets only: the domain holds no [@]
    and no white space. *)
Theorem accepted_email_shape s m :
  isValidEmail (FStr s) = Return (Some m) →
  m = toLowerCase s
  ∧ ∃ local domain,
      m = local ++ 64%N :: domain
      ∧ local ≠ [] ∧ domain ≠ []
      ∧ Forall (λ c, domain_char c = true) domain
      ∧ (64%N ∉ domain)
      ∧ Forall (λ c, is_white_space c = false) domain.
Proof.
  intros (Hm & l & d & Hsplit & Hl & Hd)%isValidEmail_match.
  split; [done|]. exists l, d.
  pose proof (classes_within_lang _ _ _ domain_classes Hd) as Hchars.
  split_and!; [done | | | done | |].
  - by apply (not_nullable_nonempty (Alt dotted_atoms quoted_local)).
  - by apply (not_nullable_nonempty (Alt ip_literal domain_name)).
  - intros Hin. rewrite Forall_forall in Hchars.
    by destruct (domain_char_plain _ (Hchars _ Hin)).
  - eapply Forall_impl; [exact Hchars|]. intros c Hc.
    by destruct (domain_char_plain c Hc).
Qed.

(** The domain of an accepted address is either a bracketed run of digits
    and dots, or ends with a dot followed by at least two letters. *)
Theorem accepted_email_domain s m :
  isValidEmail (FStr s) = Return (Some m) →
  ∃ local domain,
    m = local ++ 64%N :: domain
    ∧ ((∃ quad, domain = 91%N :: quad ++ [93%N]
                ∧ Forall (λ c, quad_char c = true) quad)
       ∨ (∃ labels tld,
            domain = labels ++ 46%N :: tld ∧ (2 ≤ length tld)%nat
            ∧ Forall (λ c, letter c = true) tld)).
Proof.
  intros (_ & l & d & Hsplit & _ & Hd)%isValidEmail_match.
  exists l, d. split; [done|].
  apply in_alt_inv in Hd as [Hd|Hd].
  - left. by apply ip_literal_shape.
  - right. by apply domain_name_shape.
Qed.

End facts.

Import Reference.

Lemma accepted_email_shape_witness :
  isValidEmail (FStr (lit "Alice@Example.com"))
    = Return (Some (lit "alice@example.com"))
  ∧ lit "alice@example.com" = toLowerCase (lit "Alice@Example.com").
Proof.
  assert (isValidEmail (FStr (lit "Alice@Example.com"))
          = Return (Some (lit "alice@example.com"))) as Hv by reflexivity.
  split; [exact Hv|].
  exact (proj1 (accepted_email_shape (B := builtins) _ _ Hv)).
Defined.

Lemma accepted_email_domain_witness :
  isValidEmail (FStr (lit "a.b-c@[1.22.333.4]"))
    = Return (Some (lit "a.b-c@[1.22.333.4]"))
  ∧ ∃ local domain,
      lit "a.b-c@[1.22.333.4]" = local ++ 64%N :: domain
      ∧ ((∃ quad, domain = 91%N :: quad ++ [93%N]
                  ∧ Forall (λ c, quad_char c = true) quad)
         ∨ (∃ labels tld,
              domain = labels ++ 46%N :: tld ∧ (2 ≤ length tld)%nat
              ∧ Forall (λ c, letter c = true) tld)).
Proof.
  assert (isValidEmail (FStr (lit "a.b-c@[1.22.333.4]"))
          = Return (Some (lit "a.b-c@[1.22.333.4]"))) as Hv by reflexivity.
  split; [exact Hv|].
  exact (accepted_email_domain (B := builtins) _ _ Hv).
Defined.

End EmailFacts.

(** ** Further properties of the route *)

Module RouteMore.
Import Js Validators Route Stages Rules Shapes RouteFacts.

(** Whether the error line is in a console, against whether the reply is the
    500 response, both laid out. *)
Ltac log_iff :=
  split;
  [ let H := fresh in
    intros H;
    first
      [ done
      | repeat (apply elem_of_cons in H as [H|H]; [done|]);
        by apply elem_of_nil in H ]
  | let H := fresh in
    intros H;
    first
      [ done
      | by (cbn in H; discriminate H)
      | rewrite !elem_of_cons; auto ] ].

Section facts.
Context `{VF : ValidationFunctions, B : Builtins,
          CF : CredentialingFunctions, P : Pool}.
Variable now : Z.
Variable key : key_t.

Lemma email_pass body :
  EmailCheck body = Pass → ∃ s, prop body "email" = FStr s.
Proof.
  unfold EmailCheck, isValidEmail.
  destruct (prop body "email") as [| |b|n|t|s|items]; [done..|eauto|done].
Qed.

Lemma phone_pass body :
  PhoneCheck body = Pass →
  match prop body "phone" with
  | FStr s => (10 ≤ length s)%nat
  | FArr items => (10 ≤ length items)%nat
  | _ => False
  end.
Proof.
  unfold PhoneCheck, of_bool, isValidPhone.
  destruct (isStringProvided _); [|done].
  destruct (prop body "phone") as [| |b|n|t|s|items]; try done; cbn.
  - destruct (Z.leb_spec 10 (Z.of_nat (length s))); [|done]. intros _. lia.
  - destruct (Z.leb_spec 10 (Z.of_nat (length items))); [|done].
    intros _. lia.
Qed.

(** Whatever the helpers answer, a request that passes validation has a
    string for its email, and for its password a string of at least 15 code
    units or an array of at least 15 items.  Its phone is not absent, not
    [null], not a boolean and not a number, and has at least 10 code units
    when it is a string and at least 10 items when it is an array.  Its
    role is not absent, not [null] and not a boolean. *)
Theorem validated_request_shape body :
  validate body = Passed →
  (∃ email, prop body "email" = FStr email)
  ∧ ((∃ s, prop body "password" = FStr s ∧ (15 ≤ length s)%nat)
     ∨ (∃ items,
          prop body "password" = FArr items ∧ (15 ≤ length items)%nat))
  ∧ match prop body "phone" with
    | FStr s => (10 ≤ length s)%nat
    | FArr items => (10 ≤ length items)%nat
    | _ => False
    end
  ∧ match prop body "role" with
    | FMissing | FNull | FBool _ => False
    | _ => True
    end.
Proof.
  intros (He & _ & Hph & Hpw & Hr)%validate_passed.
  split_and!.
  - by apply email_pass.
  - by apply valid_password_shape.
  - by apply phone_pass.
  - apply valid_role_shape in Hr as (Hm & Hn & Hb).
    destruct (prop body "role"); try done. by destruct (Hb b).
Qed.

(** The route changes the storage through its queries only, and these are
    at most two: the account insert, and after it, when it returned a row,
    the credential insert with the id of that row, the digest and the salt.
    A request that fails validation issues no query and logs nothing. *)
Theorem queries_in_order body d :
  let w := (register now key body d).2 in
  store w = replay d (queries w)
  ∧ (queries w = []
     ∨ queries w = [account_query body]
     ∨ ∃ d1 (row : gmap string jsval) rows,
         pool_query insertAccountQuery (account_values body) d
           = (d1, Resolved (row :: rows))
         ∧ request_id w = row_id row
         ∧ queries w =
             [ account_query body;
               (insertCredentialQuery, credential_values body (row_id row)) ])
  ∧ (validate body ≠ Passed → queries w = [] ∧ console w = []).
Proof.
  cbn zeta. rewrite register_validate.
  destruct (validate body) as [|r|e] eqn:Hv; [|by auto..].
  destruct (persist_cases body d)
    as [(d1 & e & Hq1) | [(d1 & Hq1)
       | [(d1 & row & rows & d2 & e & Hq1 & Hq2)
       | (d1 & row & rows & d2 & rows2 & Hq1 & Hq2)]]].
  - rewrite (persist_account_rejected _ _ _ _ _ _ Hq1).
    cbn [snd store queries console]. unfold replay. cbn [foldl fst snd].
    rewrite Hq1. split_and!; [done | by right; left | done].
  - rewrite (persist_no_row _ _ _ _ _ Hq1).
    cbn [snd store queries console]. unfold replay. cbn [foldl fst snd].
    rewrite Hq1. split_and!; [done | by right; left | done].
  - rewrite (persist_credential_rejected _ _ _ _ _ _ _ _ _ Hq1 Hq2).
    cbn [snd store queries request_id console]. unfold replay.
    cbn [foldl fst snd]. rewrite Hq1. cbn [fst]. rewrite Hq2.
    split_and!; [done| |done].
    right. right. by exists d1, row, rows.
  - rewrite (persist_both_resolved _ _ _ _ _ _ _ _ _ Hq1 Hq2).
    cbn [snd store queries request_id console]. unfold replay.
    cbn [foldl fst snd]. rewrite Hq1. cbn [fst]. rewrite Hq2.
    split_and!; [done| |done].
    right. right. by exists d1, row, rows.
Qed.

(** With a configured secret, a request that passes validation and whose
    two inserts resolve gets the 201 response; the id in the token, in the
    response and in the credential insert is the [account_id] of the row
    returned; nothing but the masked body is logged. *)
Theorem registration_succeeds body d d1 row rows d2 rows2 k :
  validate body = Passed →
  pool_query insertAccountQuery (account_values body) d
    = (d1, Resolved (row :: rows)) →
  pool_query insertCredentialQuery (credential_values body (row_id row)) d1
    = (d2, Resolved rows2) →
  secret key = Some k → k ≠ [] →
  register now key body d =
  (Return (),
   World key d2
     [ account_query body;
       (insertCredentialQuery, credential_values body (row_id row)) ]
     [ Dir (masked body) ]
     (Some (Response 201
        (Success
           (Signed (Claims (val_of_field (prop body "role")) (row_id row)
                           now (now + 14 * 24 * 60 * 60)) k)
           (row_id row))))
     (row_id row)).
Proof.
  intros Hv Hq1 Hq2 Hk Hne. rewrite register_validate, Hv.
  rewrite (persist_both_resolved _ _ _ _ _ _ _ _ _ Hq1 Hq2), Hk.
  by rewrite jwt_sign_14_days.
Qed.

(** An account insert that resolves without a row is answered like a
    failure: the [TypeError] of reading the row is logged, the reply is the
    500 response, and no credential insert is issued. *)
Theorem account_insert_without_row body d d1 :
  validate body = Passed →
  pool_query insertAccountQuery (account_values body) d
    = (d1, Resolved []) →
  register now key body d =
  (Return (),
   World key d1 [account_query body]
     (Dir (masked body) :: failure_log (Raised TypeError))
     (Some (rejection InternalError)) JUndefined).
Proof.
  intros Hv Hq1. rewrite register_validate, Hv.
  by rewrite (persist_no_row _ _ _ _ _ Hq1).
Qed.

Lemma validate_refused body r : validate body = Refused r → r ≠ InternalError.
Proof.
  unfold validate, validation_stages, run_stages.
  destruct (EmailCheck body); [|by intros [= <-]|done].
  destruct (RequiredFieldsCheck body); [|by intros [= <-]|done].
  destruct (PhoneCheck body); [|by intros [= <-]|done].
  destruct (PasswordCheck body); [|by intros [= <-]|done].
  destruct (RoleCheck body); [done|by intros [= <-]|done].
Qed.

(** The route writes its error line to the console exactly when it answers
    with the 500 response. *)
Theorem errors_logged_iff_500 body d :
  ErrorText "DB Query error on register" ∈ console (register now key body d).2
  ↔ reply (register now key body d).2 = Some (rejection InternalError).
Proof.
  rewrite register_validate. destruct (validate body) as [|r|e] eqn:Hv.
  - destruct (persist_cases body d)
      as [(d1 & e & Hq1) | [(d1 & Hq1)
         | [(d1 & row & rows & d2 & e & Hq1 & Hq2)
         | (d1 & row & rows & d2 & rows2 & Hq1 & Hq2)]]].
    + rewrite (persist_account_rejected _ _ _ _ _ _ Hq1).
      cbn [snd console reply]. destruct (account_failure e); log_iff.
    + rewrite (persist_no_row _ _ _ _ _ Hq1). cbn [snd console reply].
      log_iff.
    + rewrite (persist_credential_rejected _ _ _ _ _ _ _ _ _ Hq1 Hq2).
      cbn [snd console reply]. log_iff.
    + rewrite (persist_both_resolved _ _ _ _ _ _ _ _ _ Hq1 Hq2).
      cbn [snd console reply]. destruct (jwt_sign _ _ _ _ _); log_iff.
  - cbn [snd console reply]. apply validate_refused in Hv.
    destruct r; log_iff.
  - cbn [snd console reply start]. log_iff.
Qed.

End facts.

Import Reference ReferenceStore.

Lemma validated_request_shape_witness :
  validate alice = Passed
  ∧ (∃ email, prop alice "email" = FStr email)
  ∧ ((∃ s, prop alice "password" = FStr s ∧ (15 ≤ length s)%nat)
     ∨ (∃ items,
          prop alice "password" = FArr items ∧ (15 ≤ length items)%nat)).
Proof.
  assert (validate alice = Passed) as Hv by (vm_compute; reflexivity).
  split; [exact Hv|].
  destruct (validated_request_shape alice Hv) as (He & Hpw & _).
  exact (conj He Hpw).
Defined.

Lemma queries_in_order_witness :
  validate bad_email_and_password ≠ Passed
  ∧ queries (register 0 a_key bad_email_and_password empty_tables).2 = []
  ∧ console (register 0 a_key bad_email_and_password empty_tables).2 = [].
Proof.
  assert (validate bad_email_and_password ≠ Passed) as Hv
    by (vm_compute; discriminate).
  split; [exact Hv|].
  exact (proj2 (proj2 (queries_in_order (P := pool) 0 a_key
                         bad_email_and_password empty_tables)) Hv).
Defined.

Lemma registration_succeeds_witness :
  (validate alice = Passed
   ∧ pool_query insertAccountQuery (account_values alice) empty_tables
       = (with_alice, Resolved [alice_id_row])
   ∧ pool_query insertCredentialQuery alice_credential with_alice
       = (alice_registered, Resolved [])
   ∧ secret a_key = Some (lit "s3cret") ∧ lit "s3cret" ≠ [])
  ∧ store (register 0 a_key alice empty_tables).2 = alice_registered.
Proof.
  assert (validate alice = Passed) as Hv by (vm_compute; reflexivity).
  assert (pool_query insertAccountQuery (account_values alice) empty_tables
          = (with_alice, Resolved [alice_id_row])) as Hq1
    by (vm_compute; reflexivity).
  assert (pool_query insertCredentialQuery alice_credential with_alice
          = (alice_registered, Resolved [])) as Hq2
    by (vm_compute; reflexivity).
  assert (secret a_key = Some (lit "s3cret")) as Hk by reflexivity.
  assert (lit "s3cret" ≠ []) as Hne by discriminate.
  split; [exact (conj Hv (conj Hq1 (conj Hq2 (conj Hk Hne))))|].
  rewrite (registration_succeeds (P := pool) 0 a_key alice empty_tables
             with_alice alice_id_row [] alice_registered [] (lit "s3cret")
             Hv Hq1 Hq2 Hk Hne).
  reflexivity.
Defined.

Lemma account_insert_without_row_witness :
  (validate alice = Passed
   ∧ pool_query (Pool := silent_pool) insertAccountQuery
       (account_values alice) tt = (tt, Resolved []))
  ∧ reply (register (P := silent_pool) 0 a_key alice tt).2
      = Some (rejection InternalError).
Proof.
  assert (validate alice = Passed) as Hv by (vm_compute; reflexivity).
  assert (pool_query (Pool := silent_pool) insertAccountQuery
            (account_values alice) tt = (tt, Resolved [])) as Hq
    by reflexivity.
  split; [exact (conj Hv Hq)|].
  rewrite (account_insert_without_row (P := silent_pool) 0 a_key alice tt tt
             Hv Hq).
  reflexivity.
Defined.

End RouteMore.
